(** * go-mcp-server-mds: frontmatter extraction and markdown catalog

    A shallow embedding of the package [mcpmds] (the [Server] type and its
    methods) together with the parts of the Go standard library the methods
    call: [bytes.TrimSpace], [bytes.HasPrefix], [bytes.Index],
    [filepath.Ext], [fs.WalkDir], [fs.ReadFile] and [fs.Stat].

    Go's [string] and [[]byte] are both immutable byte sequences; they are
    modelled by [list ascii], so that the conversions [string(content)] and
    [[]byte(u.Delimiter)] are the identity. *)

From Stdlib Require Import ZArith Ascii String List Lia Bool.
From stdpp Require Import base option list gmap strings.

Local Open Scope Z_scope.

Abbreviation bytes := (list ascii).

(** Byte string literal: [B "---"] is the Go literal ["---"]. *)
Definition B (s : string) : bytes := list_ascii_of_string s.

(** The byte ['\n']. *)
Definition LF : ascii := "010"%char.

(** The numeric value of a byte. *)
Definition bv (c : ascii) : Z := Z.of_N (N_of_ascii c).

(** Go's [len] as an [int]. *)
Definition len {A} (l : list A) : Z := Z.of_nat (length l).

(** A slice expression [s[lo:hi]] and [s[lo:]] for indices in range. *)
Definition slice {A} (s : list A) (lo hi : Z) : list A :=
  take (Z.to_nat (hi - lo)) (drop (Z.to_nat lo) s).

Definition slice_from {A} (s : list A) (lo : Z) : list A :=
  drop (Z.to_nat lo) s.

(** ** Package [unicode/utf8] *)

Module utf8.

Definition RuneError : Z := 65533.
Definition RuneSelf : Z := 128.
Definition UTFMax : Z := 4.

(** The table [first]: information about the first byte of an encoding.
    [0xF0] is [as] (ASCII), [0xF1] is [xx] (invalid); otherwise the low
    three bits give the size and the high four bits index
    [acceptRanges]. *)
Definition first (p0 : Z) : Z :=
  if p0 <? 128 then 240
  else if p0 <? 194 then 241
  else if p0 <? 224 then 2
  else if p0 =? 224 then 19
  else if p0 <? 237 then 3
  else if p0 =? 237 then 35
  else if p0 <? 240 then 3
  else if p0 =? 240 then 52
  else if p0 <? 244 then 4
  else if p0 =? 244 then 68
  else 241.

Definition acceptRanges (i : Z) : Z * Z :=
  if i =? 0 then (128, 191)
  else if i =? 1 then (160, 191)
  else if i =? 2 then (128, 159)
  else if i =? 3 then (144, 191)
  else if i =? 4 then (128, 143)
  else (0, 0).

Definition locb : Z := 128.
Definition hicb : Z := 191.

Definition DecodeRune (p : bytes) : Z * Z :=
  match p with
  | [] => (RuneError, 0)
  | p0 :: t =>
    let x := first (bv p0) in
    if 240 <=? x then
      ((if Z.testbit x 0 then RuneError else bv p0), 1)
    else
      let sz := Z.land x 7 in
      let '(lo, hi) := acceptRanges (Z.shiftr x 4) in
      if len p <? sz then (RuneError, 1) else
      match t with
      | [] => (RuneError, 1)
      | c1 :: t1 =>
        let b1 := bv c1 in
        if (b1 <? lo) || (hi <? b1) then (RuneError, 1) else
        if sz <=? 2 then
          (Z.lor (Z.shiftl (Z.land (bv p0) 31) 6) (Z.land b1 63), 2)
        else
        match t1 with
        | [] => (RuneError, 1)
        | c2 :: t2 =>
          let b2 := bv c2 in
          if (b2 <? locb) || (hicb <? b2) then (RuneError, 1) else
          if sz <=? 3 then
            (Z.lor (Z.lor (Z.shiftl (Z.land (bv p0) 15) 12)
                          (Z.shiftl (Z.land b1 63) 6))
                   (Z.land b2 63), 3)
          else
          match t2 with
          | [] => (RuneError, 1)
          | c3 :: _ =>
            let b3 := bv c3 in
            if (b3 <? locb) || (hicb <? b3) then (RuneError, 1) else
            (Z.lor (Z.lor (Z.lor (Z.shiftl (Z.land (bv p0) 7) 18)
                                 (Z.shiftl (Z.land b1 63) 12))
                          (Z.shiftl (Z.land b2 63) 6))
                   (Z.land b3 63), 4)
          end
        end
      end
  end.

(** [RuneStart b]: [b&0xC0 != 0x80]. *)
Definition RuneStart (b : Z) : bool := negb (Z.land b 192 =? 128).

(** The byte [p[i]]; the callers only index in range. *)
Definition at_ (p : bytes) (i : Z) : Z :=
  bv (nth (Z.to_nat i) p "000"%char).

(** The loop [for start--; start >= lim; start--] of [DecodeLastRune],
    entered after the first decrement; it runs at most [UTFMax] times. *)
Fixpoint back_to_start (n : nat) (p : bytes) (start lim : Z) : Z :=
  match n with
  | O => start
  | S n' =>
    if start <? lim then start
    else if RuneStart (at_ p start) then start
    else back_to_start n' p (start - 1) lim
  end.

Definition DecodeLastRune (p : bytes) : Z * Z :=
  let end_ := len p in
  if end_ =? 0 then (RuneError, 0) else
  let start := end_ - 1 in
  let r := at_ p start in
  if r <? RuneSelf then (r, 1) else
  let lim := Z.max 0 (end_ - UTFMax) in
  let start := back_to_start (S (Z.to_nat UTFMax)) p (start - 1) lim in
  let start := Z.max 0 start in
  let '(r, size) := DecodeRune (slice p start end_) in
  if negb (start + size =? end_) then (RuneError, 1) else (r, size).

End utf8.

(** ** Package [unicode] *)

Module unicode.

(** [IsSpace]: the Latin-1 switch, then the [White_Space] table without
    its Latin-1 entries. *)
Definition IsSpace (r : Z) : bool :=
  if (0 <=? r) && (r <=? 255) then
    (r =? 9) || (r =? 10) || (r =? 11) || (r =? 12) || (r =? 13)
    || (r =? 32) || (r =? 133) || (r =? 160)
  else
    (r =? 5760) || ((8192 <=? r) && (r <=? 8202))
    || (r =? 8232) || (r =? 8233) || (r =? 8239) || (r =? 8287)
    || (r =? 12288).

End unicode.

(** ** Package [bytes] *)

Module bytes_.

(** The table [asciiSpace]: ['\t'], ['\n'], ['\v'], ['\f'], ['\r'], [' ']. *)
Definition asciiSpace (c : ascii) : bool :=
  let b := bv c in
  (b =? 9) || (b =? 10) || (b =? 11) || (b =? 12) || (b =? 13) || (b =? 32).

(** [indexFunc s f truth], the loop unrolled over the bytes of [s]:
    [skip] counts the bytes of the current rune still to be passed,
    [pos] is the offset of the head of [s]. *)
Fixpoint indexFunc_from (f : Z -> bool) (truth : bool)
    (s : bytes) (skip : nat) (pos : Z) : Z :=
  match s with
  | [] => -1
  | c :: s' =>
    match skip with
    | S k => indexFunc_from f truth s' k (pos + 1)
    | O =>
      let '(r, wid) :=
        if utf8.RuneSelf <=? bv c then utf8.DecodeRune s else (bv c, 1) in
      if eqb (f r) truth then pos
      else indexFunc_from f truth s' (Z.to_nat wid - 1) (pos + 1)
    end
  end.

Definition indexFunc (s : bytes) (f : Z -> bool) (truth : bool) : Z :=
  indexFunc_from f truth s 0 0.

(** [lastIndexFunc s f truth]: the loop [for i := len(s); i > 0;], which
    decreases [i] by at least one in every round. *)
Fixpoint lastIndexFunc_from (n : nat) (f : Z -> bool) (truth : bool)
    (s : bytes) (i : Z) : Z :=
  match n with
  | O => -1
  | S n' =>
    if i <=? 0 then -1 else
    let '(r, size) :=
      if utf8.RuneSelf <=? utf8.at_ s (i - 1)
      then utf8.DecodeLastRune (slice s 0 i)
      else (utf8.at_ s (i - 1), 1) in
    let i := i - size in
    if eqb (f r) truth then i
    else lastIndexFunc_from n' f truth s i
  end.

Definition lastIndexFunc (s : bytes) (f : Z -> bool) (truth : bool) : Z :=
  lastIndexFunc_from (S (length s)) f truth s (len s).

Definition TrimLeftFunc (s : bytes) (f : Z -> bool) : bytes :=
  let i := indexFunc s f false in
  if i =? -1 then [] else slice_from s i.

Definition TrimRightFunc (s : bytes) (f : Z -> bool) : bytes :=
  let i := lastIndexFunc s f false in
  let i :=
    if (0 <=? i) && (utf8.RuneSelf <=? utf8.at_ s i)
    then i + snd (utf8.DecodeRune (slice_from s i))
    else i + 1 in
  slice s 0 i.

Definition TrimFunc (s : bytes) (f : Z -> bool) : bytes :=
  TrimRightFunc (TrimLeftFunc s f) f.

(** The first loop of [TrimSpace]: skip leading ASCII space.  [inl r] is
    [s[start:]] at the [break] (or at the end of [s]); [inr r] is the
    early [return TrimFunc(s[start:], unicode.IsSpace)]. *)
Fixpoint trim_start (s : bytes) : bytes + bytes :=
  match s with
  | [] => inl []
  | c :: s' =>
    if utf8.RuneSelf <=? bv c then inr (TrimFunc s unicode.IsSpace)
    else if asciiSpace c then trim_start s'
    else inl s
  end.

(** The second loop of [TrimSpace], over the reversed [s[start:]]: the
    head of [r] is [s[stop-1]]. *)
Fixpoint trim_stop (r : bytes) : bytes :=
  match r with
  | [] => []
  | c :: r' =>
    if utf8.RuneSelf <=? bv c then TrimFunc (rev r) unicode.IsSpace
    else if asciiSpace c then trim_stop r'
    else rev r
  end.

(** [bytes.TrimSpace].  A [nil] and an empty slice are both [[]]. *)
Definition TrimSpace (s : bytes) : bytes :=
  match trim_start s with
  | inr t => t
  | inl s1 => trim_stop (rev s1)
  end.

(** [bytes.HasPrefix]. *)
Fixpoint HasPrefix (s prefix : bytes) {struct prefix} : bool :=
  match prefix, s with
  | [], _ => true
  | _ :: _, [] => false
  | p :: prefix', c :: s' => Ascii.eqb c p && HasPrefix s' prefix'
  end.

(** [bytes.Index]: the offset of the first instance of [sep] in [s], or
    [-1]. *)
Fixpoint Index (s sep : bytes) : Z :=
  if HasPrefix s sep then 0 else
  match s with
  | [] => -1
  | _ :: s' => let i := Index s' sep in if i =? -1 then -1 else i + 1
  end.

End bytes_.

(** [strings.HasPrefix] is the same function on a [string]. *)
Module strings_.
Definition HasPrefix (s prefix : bytes) : bool := bytes_.HasPrefix s prefix.
End strings_.

(** The lines [ls] joined by ['\n'], as a document holds them. *)
Fixpoint join_lines (ls : list bytes) : bytes :=
  match ls with
  | [] => []
  | [l] => l
  | l :: ls' => l ++ LF :: join_lines ls'
  end.

(** ** Errors

    Go's [error] values that the package can meet: the sentinel errors of
    [io/fs], [*fs.PathError] wrapping one of them, an [errors.New] string,
    and the errors the two decoders and [json.Marshal] report.  A [nil]
    error is [None : option error]. *)

Inductive error : Type :=
| ErrInvalid
| ErrPermission
| ErrExist
| ErrNotExist
| SkipDir
| SkipAll
| PathError (Op : bytes) (Path : bytes) (Err : error)
| errorString (s : bytes)
| DecodeError (s : bytes)
| MarshalError (s : bytes).

#[global] Instance error_eq_dec : EqDecision error.
Proof. solve_decision. Defined.

(** [errors.Is err target] for a sentinel [target]: [err] is [target] or
    unwraps to it. *)
Fixpoint errors_Is (err target : error) : bool :=
  if decide (err = target) then true else
  match err with
  | PathError _ _ e => errors_Is e target
  | _ => false
  end.

(** A value and an error, as Go functions return them: [inl e] when the
    error is not [nil]. *)
Abbreviation result A := (error + A)%type.

(** ** The frontmatter mapping [map[string]any]

    The dynamically typed values the decoders produce.  The integer
    families are kept apart: [int64] and [uint64] are different
    constructors. *)

#[warning="-register-all"]
Inductive any : Type :=
| VNil
| VBool (b : bool)
| VInt64 (i : Z)
| VUint64 (u : Z)
| VFloat64 (bits : Z)
| VString (s : bytes)
| VSlice (l : list any)
| VMap (m : list (bytes * any)).

(** A [nil] map and an empty map both have length zero and ignore
    [delete]; both are the empty [gmap]. *)
Abbreviation Frontmatter := (gmap bytes any).

(** What [readFrontmatter] returns: [None] is the [nil] map. *)
Abbreviation FrontmatterOpt := (option (gmap bytes any)).

(** ** [Server.readFrontmatter] *)

(** The local type [unmarshaler].  [Unmarshaler] decodes into a fresh
    [nil] map variable: it either fails or leaves a mapping there. *)
Record unmarshaler : Type := {
  Unmarshaler : bytes -> result (gmap bytes any);
  Delimiter : bytes;
}.

(** The loop [for _, key := range s.excludeFrontmatter { delete(...) }]. *)
Definition delete_keys (keys : list bytes) (frontmatter : gmap bytes any)
    : gmap bytes any :=
  foldl (fun m key => delete key m) frontmatter keys.

(** The loop [for _, u := range unmarshalers] over the trimmed [content];
    [continue] is the recursive call on the remaining unmarshalers. *)
Fixpoint readFrontmatter_loop (excludeFrontmatter : list bytes)
    (content : bytes) (unmarshalers : list unmarshaler)
    : FrontmatterOpt * option error :=
  match unmarshalers with
  | [] => (None, None)
  | u :: rest =>
    if bytes_.HasPrefix content (Delimiter u) then
      let start := bytes_.Index content (Delimiter u) in
      if start =? -1 then
        readFrontmatter_loop excludeFrontmatter content rest
      else
      let end_ :=
        bytes_.Index (slice_from content (start + len (Delimiter u)))
                     (LF :: Delimiter u) in
      if end_ =? -1 then
        readFrontmatter_loop excludeFrontmatter content rest
      else
      match Unmarshaler u
              (slice content (start + len (Delimiter u))
                             (start + len (Delimiter u) + end_)) with
      | inl err => (None, Some err)
      | inr frontmatter =>
        let frontmatter := delete_keys excludeFrontmatter frontmatter in
        if Z.of_nat (size frontmatter) =? 0 then (None, None)
        else (Some frontmatter, None)
      end
    else readFrontmatter_loop excludeFrontmatter content rest
  end.

(** ** Package [path/filepath] (Unix) *)

Definition slash : ascii := "/"%char.
Definition dot : ascii := "."%char.

Module filepath.

(** The loop of [Ext] from the last byte downwards, over the reversed
    path: [acc] is [path[i+1:]]. *)
Fixpoint ext_from (r : bytes) (acc : bytes) : bytes :=
  match r with
  | [] => []
  | c :: r' =>
    if Ascii.eqb c slash then []
    else if Ascii.eqb c dot then c :: acc
    else ext_from r' (c :: acc)
  end.

Definition Ext (path : bytes) : bytes := ext_from (rev path) [].

Fixpoint strip_slashes (r : bytes) : bytes :=
  match r with
  | c :: r' => if Ascii.eqb c slash then strip_slashes r' else r
  | [] => []
  end.

Fixpoint last_elem (r : bytes) (acc : bytes) : bytes :=
  match r with
  | [] => acc
  | c :: r' => if Ascii.eqb c slash then acc else last_elem r' (c :: acc)
  end.

Definition Base (path : bytes) : bytes :=
  match path with
  | [] => [dot]
  | _ =>
    match last_elem (strip_slashes (rev path)) [] with
    | [] => [slash]
    | e => e
    end
  end.

End filepath.

(** ** Package [io/fs] over a filesystem snapshot

    A snapshot of the served tree.  A file holds its bytes, and the size
    that its [FileInfo] reports is their number; [statErr], [readErr] and
    [readDirErr] are the failures (permission, I/O) that a stat, a read
    and a directory listing of the entry meet, [None] when they succeed. *)

#[warning="-register-all"]
Inductive node : Type :=
| File (name : bytes) (statErr readErr : option error) (data : bytes)
| Dir (name : bytes) (statErr readDirErr : option error)
      (entries : list node).

Definition node_name (n : node) : bytes :=
  match n with File name _ _ _ => name | Dir name _ _ _ => name end.

Definition node_IsDir (n : node) : bool :=
  match n with File _ _ _ _ => false | Dir _ _ _ _ => true end.

Record FileInfo : Type := { fi_Size : Z; fi_IsDir : bool }.

Definition node_Info (n : node) : result FileInfo :=
  match n with
  | File _ (Some err) _ _ => inl err
  | File _ None _ data => inr {| fi_Size := len data; fi_IsDir := false |}
  | Dir _ (Some err) _ _ => inl err
  | Dir _ None _ _ => inr {| fi_Size := 0; fi_IsDir := true |}
  end.

(** An [fs.DirEntry]. *)
Record DirEntry : Type := {
  de_Name : bytes;
  de_IsDir : bool;
  de_Info : result FileInfo;
}.

Definition entry_of (n : node) : DirEntry :=
  {| de_Name := node_name n; de_IsDir := node_IsDir n;
     de_Info := node_Info n |}.

(** [path.Join dir name] for a clean [dir] and the name of a directory
    entry: the walk of ["."] yields ["a.md"], not ["./a.md"]. *)
Definition path_Join (dir name : bytes) : bytes :=
  if decide (dir = [dot]) then name else dir ++ slash :: name.

(** The pieces of [p] between the occurrences of the byte [sep]. *)
Fixpoint split_on (sep : ascii) (p : bytes) : list bytes :=
  match p with
  | [] => [[]]
  | c :: p' =>
    if Ascii.eqb c sep then [] :: split_on sep p'
    else match split_on sep p' with
         | e :: es => (c :: e) :: es
         | [] => [[c]]
         end
  end.

(** The elements of a slash-separated path. *)
Definition split_path (p : bytes) : list bytes := split_on slash p.

Definition find_entry (name : bytes) (entries : list node) : option node :=
  List.find (fun n => bool_decide (node_name n = name)) entries.

Fixpoint find_path (elems : list bytes) (entries : list node)
    : option node :=
  match elems with
  | [] => None
  | [e] => find_entry e entries
  | e :: es =>
    match find_entry e entries with
    | Some (Dir _ _ _ entries') => find_path es entries'
    | _ => None
    end
  end.

(** The entry that [name] opens: the root for ["."], else the entry its
    elements lead to. *)
Definition fs_lookup (fsys : node) (name : bytes) : option node :=
  if decide (name = [dot]) then Some fsys else
  match fsys with
  | Dir _ _ _ entries => find_path (split_path name) entries
  | File _ _ _ _ => None
  end.

Module fs.

(** [fs.ReadFile]: a name that opens nothing is reported as a
    [*PathError] wrapping [ErrNotExist]; a directory cannot be read.
    The class of the first error is that of [fstest.MapFS], which the
    tests serve.  The implementations of [fs.FS] agree on it where a
    directory lacks the next element of a valid name; for a name that is
    not valid and for a path through a file, [os.DirFS] answers with
    [ErrInvalid] and with the system's not-a-directory error. *)
Definition ReadFile (fsys : node) (name : bytes) : result bytes :=
  match fs_lookup fsys name with
  | None => inl (PathError (B "open") name ErrNotExist)
  | Some (File _ _ (Some err) _) => inl err
  | Some (File _ _ None data) => inr data
  | Some (Dir _ _ _ _) => inl (PathError (B "read") name ErrInvalid)
  end.

(** [fs.Stat]. *)
Definition Stat (fsys : node) (name : bytes) : result FileInfo :=
  match fs_lookup fsys name with
  | None => inl (PathError (B "open") name ErrNotExist)
  | Some n => node_Info n
  end.

(** A [fs.WalkDirFunc] that threads the state [St] of its closure. *)
Definition WalkDirFunc (St : Type) : Type :=
  bytes -> option DirEntry -> option error -> St -> St * option error.

(** The loop [for _, d1 := range dirs] of [walkDir], with the
    recursive call as [walk]: a [SkipDir] from an entry leaves the loop. *)
Definition walk_entries {St}
    (walk : bytes -> node -> St -> St * option error) (name : bytes)
    : list node -> St -> St * option error :=
  fix loop (dirs : list node) (st : St) : St * option error :=
    match dirs with
    | [] => (st, None)
    | d1 :: dirs' =>
      let name1 := path_Join name (node_name d1) in
      match walk name1 d1 st with
      | (st, Some err) =>
        if bool_decide (err = SkipDir) then (st, None)
        else (st, Some err)
      | (st, None) => loop dirs' st
      end
    end.

(** [fs.walkDir]. *)
Fixpoint walkDir {St} (name : bytes) (n : node) (walkDirFn : WalkDirFunc St)
    (st : St) {struct n} : St * option error :=
  let d := entry_of n in
  match walkDirFn name (Some d) None st with
  | (st, Some err) =>
    if bool_decide (err = SkipDir) && de_IsDir d then (st, None)
    else (st, Some err)
  | (st, None) =>
    match n with
    | File _ _ _ _ => (st, None)
    | Dir _ _ readDirErr dirs =>
      let walk := fun name1 d1 st => walkDir name1 d1 walkDirFn st in
      match readDirErr with
      | Some err =>
        match walkDirFn name (Some d) (Some err) st with
        | (st, Some err) =>
          if bool_decide (err = SkipDir) && de_IsDir d then (st, None)
          else (st, Some err)
        | (st, None) => walk_entries walk name dirs st
        end
      | None => walk_entries walk name dirs st
      end
    end
  end.

(** [fs.WalkDir]. *)
Definition WalkDir {St} (fsys : node) (root : bytes)
    (fn : WalkDirFunc St) (st : St) : St * option error :=
  let '(st, err) :=
    match Stat fsys root, fs_lookup fsys root with
    | inr info, Some n => walkDir root n fn st
    | inl err, _ => fn root None (Some err) st
    | inr _, None => (st, None)
    end in
  match err with
  | Some e =>
    if bool_decide (e = SkipDir) || bool_decide (e = SkipAll)
    then (st, None) else (st, Some e)
  | None => (st, None)
  end.

End fs.

(** ** Package [iter] and [slices.Collect] *)

(** An [iter.Seq[V]] pushes its values into [yield], which threads the
    state of the consumer and answers whether to go on. *)
Definition Seq (V : Type) : Type :=
  forall St : Type, (V -> St -> St * bool) -> St -> St.

Definition Collect {V} (seq : Seq V) : list V :=
  seq (list V) (fun v acc => (acc ++ [v], true)) [].

(** ** The types of the package *)

Record markdownFileInfo : Type := {
  Path : bytes;
  Size : Z;
  Frontmatter_ : FrontmatterOpt;
}.

Record listMarkdownFilesResponse : Type := {
  Files : list markdownFileInfo;
}.

Record readMarkdownFileResponse : Type := {
  r_Path : bytes;
  r_Size : Z;
  r_Frontmatter : FrontmatterOpt;
  r_Content : bytes;
}.

(** [mcp.Resource], [mcp.TextResourceContents] and the server options the
    package builds. *)
Record Resource : Type := {
  URI : bytes;
  Name : bytes;
  Description : bytes;
  MimeType : bytes;
  res_Size : Z;
}.

Record TextResourceContents : Type := {
  t_URI : bytes;
  t_Text : bytes;
  t_MimeType : bytes;
}.

Inductive mcp_ServerOption : Type :=
| WithResource (r : Resource)
| WithResourceReader
| WithTool (name description : bytes).

(** The package's own [ServerOption], a function that configures a
    [Server]: the two constructors are its two makers. *)
Inductive ServerOption : Type :=
| WithMCPOptions (opts : list mcp_ServerOption)
| WithExcludeFrontmatter (keys : list bytes).

Record Server : Type := {
  name : bytes;
  description : bytes;
  fs_ : node;
  opts : list mcp_ServerOption;
  excludeFrontmatter : list bytes;
}.

(** The call [opt(s)] of an option. *)
Definition apply_option (s : Server) (opt : ServerOption) : Server :=
  match opt with
  | WithMCPOptions opts' =>
    {| name := name s; description := description s; fs_ := fs_ s;
       opts := opts s ++ opts';
       excludeFrontmatter := excludeFrontmatter s |}
  | WithExcludeFrontmatter keys =>
    {| name := name s; description := description s; fs_ := fs_ s;
       opts := opts s;
       excludeFrontmatter := excludeFrontmatter s ++ keys |}
  end.

Section Server.

(** The two decoders of the packages [goccy/go-yaml] and
    [BurntSushi/toml], [encoding/json]'s [Marshal] and [mcp.NewServer]
    are outside this package; the methods are given for any such
    functions. *)
Variable yaml_Unmarshal : bytes -> result (gmap bytes any).
Variable toml_Unmarshal : bytes -> result (gmap bytes any).
Variable json_Marshal : FrontmatterOpt -> result bytes.
Variable mcp_Server : Type.
Variable mcp_NewServer :
  bytes -> bytes -> list mcp_ServerOption -> result mcp_Server.

Definition unmarshalers : list unmarshaler :=
  [ {| Unmarshaler := yaml_Unmarshal; Delimiter := B "---" ++ [LF] |};
    {| Unmarshaler := toml_Unmarshal; Delimiter := B "+++" ++ [LF] |} ].

Definition readFrontmatter (s : Server) (content : bytes)
    : FrontmatterOpt * option error :=
  let content := bytes_.TrimSpace content in
  readFrontmatter_loop (excludeFrontmatter s) content unmarshalers.

Definition readMarkdownInfo (s : Server) (path : bytes) (d : DirEntry)
    : result markdownFileInfo :=
  match de_Info d with
  | inl err => inl err
  | inr info =>
    match fs.ReadFile (fs_ s) path with
    | inl err => inl err
    | inr content =>
      match readFrontmatter s content with
      | (_, Some err) => inl err
      | (frontmatter, None) =>
        inr {| Path := path; Size := fi_Size info;
               Frontmatter_ := frontmatter |}
      end
    end
  end.

(** The function literal handed to [fs.WalkDir] in [markdownFiles].
    [fs.WalkDir] passes a [nil] entry only together with an error, so
    the case of a [nil] entry without one is not reached. *)
Definition walk_fn (s : Server) {St} (yield : markdownFileInfo -> St -> St * bool)
    : fs.WalkDirFunc St :=
  fun path d err st =>
    match err with
    | Some err => (st, Some err)
    | None =>
      match d with
      | None => (st, None)
      | Some d =>
        if de_IsDir d then (st, None)
        else if negb (bool_decide (filepath.Ext path = B ".md"))
        then (st, None)
        else
          match readMarkdownInfo s path d with
          | inl err => (st, Some err)
          | inr info =>
            let '(st, more) := yield info st in
            if negb more then (st, Some SkipAll) else (st, None)
          end
      end
    end.

(** [markdownFiles]: the result of [fs.WalkDir] is dropped. *)
Definition markdownFiles (s : Server) : Seq markdownFileInfo :=
  fun St yield st =>
    fst (fs.WalkDir (fs_ s) [dot] (walk_fn s yield) st).

Definition listMarkdownFiles (s : Server)
    : result listMarkdownFilesResponse :=
  inr {| Files := Collect (markdownFiles s) |}.

Definition readMarkdownFile (s : Server) (request_Path : bytes)
    : result readMarkdownFileResponse :=
  match fs.ReadFile (fs_ s) request_Path with
  | inl err => inl err
  | inr content =>
    match fs.Stat (fs_ s) request_Path with
    | inl err => inl err
    | inr info =>
      match readFrontmatter s content with
      | (_, Some err) => inl err
      | (frontmatter, None) =>
        inr {| r_Path := request_Path; r_Size := fi_Size info;
               r_Frontmatter := frontmatter; r_Content := content |}
      end
    end
  end.

(** The body of the loop [for f := range s.markdownFiles()] in
    [listResourcesOption].  The state is [opts] and, once the body has
    executed [return nil, err], that error. *)
Definition resources_body (f : markdownFileInfo)
    (st : list mcp_ServerOption * option error)
    : (list mcp_ServerOption * option error) * bool :=
  let '(opts, _) := st in
  match json_Marshal (Frontmatter_ f) with
  | inl err => ((opts, Some err), false)
  | inr desc =>
    ((opts ++ [WithResource
                 {| URI := B "file://" ++ Path f;
                    Name := filepath.Base (Path f);
                    Description := desc;
                    MimeType := B "text/markdown";
                    res_Size := Size f |}], None), true)
  end.

Definition listResourcesOption (s : Server) : result (list mcp_ServerOption) :=
  match markdownFiles s _ resources_body ([], None) with
  | (_, Some err) => inl err
  | (opts, None) => inr opts
  end.

Definition listMarkdownFilesTool (s : Server) : mcp_ServerOption :=
  WithTool (B "list_" ++ name s ++ B "_markdown_files")
           (B "List all markdown files managed by " ++ name s).

Definition readMarkdownFileTool (s : Server) : mcp_ServerOption :=
  WithTool (B "read_" ++ name s ++ B "_markdown_file")
           (B "Read a markdown file managed by " ++ name s).

Definition server (s : Server) : result mcp_Server :=
  match listResourcesOption s with
  | inl err => inl err
  | inr opts' =>
    let opts' :=
      opts' ++ [WithResourceReader; listMarkdownFilesTool s;
                readMarkdownFileTool s] in
    let opts' := opts' ++ opts s in
    mcp_NewServer (name s) (description s) opts'
  end.

Definition New (name description : bytes) (fsys : node)
    (opts : list ServerOption) : result mcp_Server :=
  let s := {| name := name; description := description; fs_ := fsys;
              opts := []; excludeFrontmatter := [] |} in
  server (foldl apply_option s opts).

(** [ReadResource]: the single [TextResourceContents] of the result. *)
Definition ReadResource (s : Server) (request_URI : bytes)
    : result TextResourceContents :=
  if negb (strings_.HasPrefix request_URI (B "file://")) then
    inl (errorString (B "unsupported scheme: " ++ request_URI))
  else
    match fs.ReadFile (fs_ s) (slice_from request_URI 7) with
    | inl err => inl err
    | inr content =>
      inr {| t_URI := request_URI; t_Text := content;
             t_MimeType := B "text/markdown" |}
    end.

End Server.

(** ** Vocabulary of the specification *)

(** The two notations, in the order [readFrontmatter] tries them. *)
Inductive notation : Type := YAML | TOML.

(** The three-byte delimiter line of a notation, without its newline. *)
Definition mark (n : notation) : bytes :=
  match n with YAML => B "---" | TOML => B "+++" end.

(** The opening delimiter line, as the [Delimiter] field has it. *)
Definition delimiter (n : notation) : bytes := mark n ++ [LF].

(** The trimmed content starts with the opening delimiter of [n]. *)
Definition opens (content : bytes) (n : notation) : bool :=
  bytes_.HasPrefix (bytes_.TrimSpace content) (delimiter n).

(** Where the closing delimiter of [n] is found after the opening one:
    the offset of the first newline followed by the delimiter line in the
    trimmed content behind the opening delimiter, or [-1]. *)
Definition close_at (content : bytes) (n : notation) : Z :=
  bytes_.Index (slice_from (bytes_.TrimSpace content) (len (delimiter n)))
               (LF :: delimiter n).

(** The text strictly between the two delimiters. *)
Definition block (content : bytes) (n : notation) : bytes :=
  slice (bytes_.TrimSpace content) (len (delimiter n))
        (len (delimiter n) + close_at content n).

(** The decoder of a notation. *)
Definition decoder (yaml_Unmarshal toml_Unmarshal : bytes -> result (gmap bytes any))
    (n : notation) : bytes -> result (gmap bytes any) :=
  match n with YAML => yaml_Unmarshal | TOML => toml_Unmarshal end.

(** What [readFrontmatter] makes of the decoder's answer. *)
Definition finish (exclude : list bytes) (r : result (gmap bytes any))
    : FrontmatterOpt * option error :=
  match r with
  | inl err => (None, Some err)
  | inr frontmatter =>
    let frontmatter := delete_keys exclude frontmatter in
    if Z.of_nat (size frontmatter) =? 0 then (None, None)
    else (Some frontmatter, None)
  end.

(** [strings.HasSuffix]. *)
Definition HasSuffix (s suffix : bytes) : bool :=
  bytes_.HasPrefix (rev s) (rev suffix).

(** The name ends in the recognized extension. *)
Definition is_md (name : bytes) : bool := HasSuffix name (B ".md").

Definition isNone {A} (o : option A) : bool :=
  match o with None => true | Some _ => false end.

(** The number of non-directory entries of the snapshot whose name ends
    in [.md]. *)
Fixpoint count_md (n : node) : nat :=
  match n with
  | File name _ _ _ => if is_md name then 1%nat else 0%nat
  | Dir _ _ _ entries => list_sum (map count_md entries)
  end.

(** These entries in the order of the walk, each with its path from the
    root and its bytes; [path] is the path of [n]. *)
Fixpoint md_files (path : bytes) (n : node) : list (bytes * bytes) :=
  match n with
  | File name _ _ data => if is_md name then [(path, data)] else []
  | Dir _ _ _ entries =>
    flat_map (fun e => md_files (path_Join path (node_name e)) e) entries
  end.

(** The name of a directory entry, as [ReadDir] gives it: one path
    element. *)
Definition valid_name (name : bytes) : bool :=
  bool_decide (slash ∉ name) && bool_decide (name <> [])
  && bool_decide (name <> [dot]) && bool_decide (name <> [dot; dot]).

(** The entries of every directory have valid, pairwise different
    names. *)
Fixpoint well_formed (n : node) : bool :=
  match n with
  | File _ _ _ _ => true
  | Dir _ _ _ entries =>
    bool_decide (NoDup (map node_name entries))
    && forallb (fun e => valid_name (node_name e)) entries
    && forallb well_formed entries
  end.

(** A served filesystem: a well-formed tree under a root directory. *)
Definition well_formed_fs (fsys : node) : bool :=
  node_IsDir fsys && well_formed fsys.

Section Scan.

Variables yaml_Unmarshal toml_Unmarshal : bytes -> result (gmap bytes any).

(** The descriptor of a document with the given path and bytes. *)
Definition describe (s : Server) (pd : bytes * bytes) : markdownFileInfo :=
  {| Path := fst pd; Size := len (snd pd);
     Frontmatter_ :=
       fst (readFrontmatter yaml_Unmarshal toml_Unmarshal s (snd pd)) |}.

(** Every step of the scan succeeds below [n]: each directory can be
    listed and each [.md] file can be stat'ed, read and decoded. *)
Fixpoint readable (s : Server) (n : node) : bool :=
  match n with
  | File name statErr readErr data =>
    if is_md name then
      isNone statErr && isNone readErr
      && isNone (snd (readFrontmatter yaml_Unmarshal toml_Unmarshal s data))
    else true
  | Dir _ _ readDirErr entries =>
    isNone readDirErr && forallb (readable s) entries
  end.

Definition scan_succeeds (s : Server) : bool :=
  match node_Info (fs_ s) with inl _ => false | inr _ => true end
  && readable s (fs_ s).

(** What the walk of the entries of the directory [path] yields, with
    [scan_node] below as [scan]. *)
Definition scan_entries
    (scan : bytes -> node -> list markdownFileInfo * option error)
    (path : bytes) : list node -> list markdownFileInfo * option error :=
  fix loop (entries : list node) : list markdownFileInfo * option error :=
    match entries with
    | [] => ([], None)
    | e :: entries' =>
      match scan (path_Join path (node_name e)) e with
      | (vs, Some err) =>
        (vs, if bool_decide (err = SkipDir) then None else Some err)
      | (vs, None) => let '(vs', r) := loop entries' in (vs ++ vs', r)
      end
    end.

(** What the walk of [n] at [path] yields when the consumer never
    stops it, and the error the walk of [n] ends with. *)
Fixpoint scan_node (s : Server) (path : bytes) (n : node)
    : list markdownFileInfo * option error :=
  match n with
  | File _ _ _ _ =>
    if negb (bool_decide (filepath.Ext path = B ".md")) then ([], None)
    else
      match readMarkdownInfo yaml_Unmarshal toml_Unmarshal s path
              (entry_of n) with
      | inl err => ([], Some err)
      | inr info => ([info], None)
      end
  | Dir _ _ readDirErr entries =>
    match readDirErr with
    | Some err => ([], if bool_decide (err = SkipDir) then None else Some err)
    | None => scan_entries (scan_node s) path entries
    end
  end.

(** The same for the whole walk from the root, where a failing stat of
    the root ends the walk at once. *)
Definition scan (s : Server) : list markdownFileInfo * option error :=
  match node_Info (fs_ s) with
  | inl err => ([], Some err)
  | inr _ => scan_node s [dot] (fs_ s)
  end.

End Scan.

(** Feeding values to a consumer until it stops. *)
Fixpoint feed {V St} (yield : V -> St -> St * bool) (vs : list V) (st : St)
    : St * bool :=
  match vs with
  | [] => (st, true)
  | v :: vs' =>
    let '(st, more) := yield v st in
    if more then feed yield vs' st else (st, false)
  end.

(** The walk with any consumer: the values of a scan [r] are fed to the
    consumer until it stops; the walk then ends with [SkipAll], and
    otherwise as the scan does. *)
Definition replay {St} (yield : markdownFileInfo -> St -> St * bool)
    (r : list markdownFileInfo * option error) (st : St)
    : St * option error :=
  let '(st', more) := feed yield (fst r) st in
  (st', if more then snd r else Some SkipAll).

(** The resource the catalog declares for a descriptor. *)
Definition resource_of (desc : bytes) (f : markdownFileInfo) : Resource :=
  {| URI := B "file://" ++ Path f;
     Name := filepath.Base (Path f);
     Description := desc;
     MimeType := B "text/markdown";
     res_Size := Size f |}.

(** The catalog for the descriptors [vs]: one resource each, or the first
    error of [json_Marshal]. *)
Fixpoint catalog (json_Marshal : FrontmatterOpt -> result bytes)
    (vs : list markdownFileInfo) : result (list mcp_ServerOption) :=
  match vs with
  | [] => inr []
  | f :: vs' =>
    match json_Marshal (Frontmatter_ f) with
    | inl err => inl err
    | inr desc =>
      match catalog json_Marshal vs' with
      | inl err => inl err
      | inr opts => inr (WithResource (resource_of desc f) :: opts)
      end
    end
  end.

(** The scheme of an address: what stands before its first colon, if it
    has one. *)
Fixpoint scheme_of (uri : bytes) : option bytes :=
  match uri with
  | [] => None
  | c :: uri' =>
    if Ascii.eqb c ":"%char then Some []
    else option_map (cons c) (scheme_of uri')
  end.

(** The elements of the path of a directory in the walk; the root is
    [.] and has none. *)
Definition elems_of (path : bytes) : list bytes :=
  if decide (path = [dot]) then [] else split_path path.

Section Scanned.

Variables yaml_Unmarshal toml_Unmarshal : bytes -> result (gmap bytes any).

(** What holds of every descriptor of the scan: it is that of a path
    that the filesystem reads, with the frontmatter of the bytes read. *)
Definition scanned (s : Server) (f : markdownFileInfo) : Prop :=
  exists content,
    fs.ReadFile (fs_ s) (Path f) = inr content
    /\ readFrontmatter yaml_Unmarshal toml_Unmarshal s content
       = (Frontmatter_ f, None).

End Scanned.

(** The directory at [path] of the walk holds [entries]: opening a name
    below [path] looks it up below [entries]. *)
Definition reaches (root_entries : list node) (path : bytes)
    (entries : list node) : Prop :=
  forall rest, rest <> [] ->
    find_path (elems_of path ++ rest) root_entries = find_path rest entries.

(** ** Reference decoders for a flat fragment of the two notations

    The decoders are parameters of the methods.  To run the methods on
    concrete documents, [Sample] gives a decoder for the fragment of each
    notation that the package's tests use: one [key: value] (YAML) or
    [key = value] (TOML) pair per line, with unquoted decimal integers
    and strings.  As the libraries do, the YAML one reads an integer as a
    [uint64] and the TOML one as an [int64].  Everything outside the
    fragment is reported as a decode error. *)

Module Sample.

Definition quote : ascii := "034"%char.

Definition is_digit (c : ascii) : bool := (48 <=? bv c) && (bv c <=? 57).

Definition all_digits (v : bytes) : bool :=
  match v with [] => false | _ => forallb is_digit v end.

Definition decimal (v : bytes) : Z :=
  foldl (fun acc c => 10 * acc + (bv c - 48)) 0 v.

(** Cut [line] at the first occurrence of [sep]. *)
Definition cut (sep line : bytes) : option (bytes * bytes) :=
  let i := bytes_.Index line sep in
  if i =? -1 then None
  else Some (slice line 0 i, slice_from line (i + len sep)).

Definition yaml_scalar (v : bytes) : result any :=
  if all_digits v then inr (VUint64 (decimal v))
  else match v with
       | c :: _ =>
         if Ascii.eqb c "["%char || Ascii.eqb c "{"%char
         then inl (DecodeError (B "sequence end token not found"))
         else inr (VString v)
       | [] => inr VNil
       end.

Definition toml_scalar (v : bytes) : result any :=
  if all_digits v then inr (VInt64 (decimal v))
  else match v, rev v with
       | c :: _ :: _, c' :: _ =>
         if Ascii.eqb c quote && Ascii.eqb c' quote
         then inr (VString (slice v 1 (len v - 1)))
         else inl (DecodeError (B "invalid value"))
       | _, _ => inl (DecodeError (B "invalid value"))
       end.

Fixpoint decode_lines (sep : bytes) (scalar : bytes -> result any)
    (lines : list bytes) (acc : gmap bytes any) : result (gmap bytes any) :=
  match lines with
  | [] => inr acc
  | [] :: lines' => decode_lines sep scalar lines' acc
  | line :: lines' =>
    match cut sep line with
    | None => inl (DecodeError (B "key without value"))
    | Some (k, v) =>
      match scalar v with
      | inl err => inl err
      | inr x => decode_lines sep scalar lines' (<[k := x]> acc)
      end
    end
  end.

Definition yaml_Unmarshal (data : bytes) : result (gmap bytes any) :=
  decode_lines (B ": ") yaml_scalar (split_on LF data) ∅.

Definition toml_Unmarshal (data : bytes) : result (gmap bytes any) :=
  decode_lines (B " = ") toml_scalar (split_on LF data) ∅.

(** A stand-in for [json.Marshal]: the keys of the mapping, or [null]. *)
Definition json_Marshal (fm : FrontmatterOpt) : result bytes :=
  match fm with
  | None => inr (B "null")
  | Some m => inr (B "{" ++ concat (map fst (map_to_list m)) ++ B "}")
  end.

(** A document given by its lines. *)
Definition doc (lines : list string) : bytes := join_lines (map B lines).

Definition srv (fsys : node) (exclude : list bytes) : Server :=
  {| name := B "test-server"; description := B "test description";
     fs_ := fsys; opts := []; excludeFrontmatter := exclude |}.

Definition rf (exclude : list bytes) (content : bytes) :=
  readFrontmatter yaml_Unmarshal toml_Unmarshal (srv (Dir [dot] None None []) exclude) content.

(** A file and a directory without failures. *)
Definition file (name : string) (lines : list string) : node :=
  File (B name) None None (doc lines).

Definition dir (name : string) (entries : list node) : node :=
  Dir (B name) None None entries.

(** The filesystem of [Test_server_listMarkdownFiles], its entries in the
    lexical order in which [ReadDir] lists them. *)
Definition testFS : node :=
  dir "."
    [ file "another.md" ["content4"];
      dir "dir"
        [ file "file2.md" ["---"; "title: File 2"; "---"; "content2"];
          dir "subdir" [ file "f3.md" ["content3"] ] ];
      dir "fake.md" [];
      file "file1.md" ["content1"];
      file "noread.md" ["cannot read"];
      file "skip.txt" ["text"] ].

(** A filesystem whose second document has a malformed block. *)
Definition badFS : node :=
  dir "."
    [ file "a.md" ["content1"];
      file "b.md" ["---"; "value: [1, 2"; "---"; "content2"];
      file "c.md" ["content3"] ].

(** A filesystem whose second document cannot be read. *)
Definition deniedFS : node :=
  dir "."
    [ file "a.md" ["content1"];
      File (B "b.md") None
        (Some (PathError (B "open") (B "b.md") ErrPermission))
        (doc ["content2"]);
      file "c.md" ["content3"] ].

End Sample.

(** ** Further vocabulary *)

(** [strings.Split s sep] for a separator of one byte. *)
Definition strings_Split (s : bytes) (sep : ascii) : list bytes :=
  split_on sep s.

(** [strings.Join elems sep] for a separator of one byte. *)
Fixpoint strings_Join (elems : list bytes) (sep : ascii) : bytes :=
  match elems with
  | [] => []
  | [e] => e
  | e :: elems' => e ++ sep :: strings_Join elems' sep
  end.

(** The MCP options and the excluded keys that a list of options of the
    package carries, in the order of the list. *)
Definition mcp_options (options : list ServerOption) : list mcp_ServerOption :=
  flat_map (fun o => match o with
                     | WithMCPOptions opts' => opts'
                     | WithExcludeFrontmatter _ => []
                     end) options.

Definition excluded_keys (options : list ServerOption) : list bytes :=
  flat_map (fun o => match o with
                     | WithMCPOptions _ => []
                     | WithExcludeFrontmatter keys => keys
                     end) options.

Section Main.

Variables yaml_Unmarshal toml_Unmarshal : bytes -> result (gmap bytes any).
Variable json_Marshal : FrontmatterOpt -> result bytes.
Variable mcp_Server : Type.
Variable mcp_NewServer :
  bytes -> bytes -> list mcp_ServerOption -> result mcp_Server.

(** The construction of the server in [main] of the command, from the
    values of the flags and the filesystem [os.DirFS(path)]. *)
Definition main_New (name description : bytes) (dirFS : node)
    (excludeFrontmatter : bytes) : result mcp_Server :=
  New yaml_Unmarshal toml_Unmarshal json_Marshal mcp_Server mcp_NewServer
    name description dirFS
    [WithExcludeFrontmatter (strings_Split excludeFrontmatter ","%char)].

(** What holds of every document that the scan of a well-formed
    filesystem lists: its path opens a readable file whose name ends in
    [.md] and is the last element of the path, its size is the number of
    bytes of that file and its frontmatter that of those bytes. *)
Definition listed (s : Server) (f : markdownFileInfo) : Prop :=
  exists name data,
    fs_lookup (fs_ s) (Path f) = Some (File name None None data)
    /\ is_md name = true
    /\ is_md (Path f) = true
    /\ filepath.Base (Path f) = name
    /\ Size f = len data
    /\ readFrontmatter yaml_Unmarshal toml_Unmarshal s data
       = (Frontmatter_ f, None).

End Main.

(** ** The earlier extractor ([server.go], package [server])

    [legacy_readFrontmatter] tests the prefix on the trimmed content but
    searches and slices the content as given, and slices up to [end]
    although [end] counts from behind the opening delimiter.  A slice
    expression [content[lo:hi]] with [lo > hi] panics: that is [None].
    It returns the map as decoded (the empty [gmap] for a [nil] map). *)

Fixpoint legacy_readFrontmatter_loop (content : bytes)
    (unmarshalers : list unmarshaler)
    : option (gmap bytes any * option error) :=
  match unmarshalers with
  | [] => Some (∅, None)
  | u :: rest =>
    if bytes_.HasPrefix (bytes_.TrimSpace content) (Delimiter u) then
      let start := bytes_.Index content (Delimiter u) in
      if start =? -1 then legacy_readFrontmatter_loop content rest
      else
      let end_ :=
        bytes_.Index (slice_from content (start + len (Delimiter u)))
                     (LF :: Delimiter u) in
      if end_ =? -1 then legacy_readFrontmatter_loop content rest
      else
      if end_ <? start + len (Delimiter u) then None
      else
      match Unmarshaler u (slice content (start + len (Delimiter u)) end_) with
      | inl err => Some (∅, Some err)
      | inr frontmatter => Some (frontmatter, None)
      end
    else legacy_readFrontmatter_loop content rest
  end.

Definition legacy_readFrontmatter
    (yaml_Unmarshal toml_Unmarshal : bytes -> result (gmap bytes any))
    (content : bytes) : option (gmap bytes any * option error) :=
  legacy_readFrontmatter_loop content
    (unmarshalers yaml_Unmarshal toml_Unmarshal).

(** ** Valid names and missing entries *)

(** [utf8.ValidString]: the loop over the bytes of [s]; [skip] counts
    the bytes of the current encoding still to be passed.  (The fast path
    over eight ASCII bytes at a time has the same answer.) *)
Fixpoint utf8_valid_from (s : bytes) (skip : nat) : bool :=
  match s with
  | [] => true
  | si :: s' =>
    match skip with
    | S k => utf8_valid_from s' k
    | O =>
      if bv si <? utf8.RuneSelf then utf8_valid_from s' 0 else
      let x := utf8.first (bv si) in
      if x =? 241 then false else
      let size := Z.land x 7 in
      if len s <? size then false else
      let '(lo, hi) := utf8.acceptRanges (Z.shiftr x 4) in
      if (utf8.at_ s 1 <? lo) || (hi <? utf8.at_ s 1) then false
      else if size =? 2 then utf8_valid_from s' 1
      else if (utf8.at_ s 2 <? utf8.locb) || (utf8.hicb <? utf8.at_ s 2)
      then false
      else if size =? 3 then utf8_valid_from s' 2
      else if (utf8.at_ s 3 <? utf8.locb) || (utf8.hicb <? utf8.at_ s 3)
      then false
      else utf8_valid_from s' 3
    end
  end.

Definition utf8_ValidString (s : bytes) : bool := utf8_valid_from s 0.

(** [fs.ValidPath]: valid UTF-8, and either the root ["."] or elements
    between the slashes none of which is empty, ["."] or [".."]. *)
Definition fs_ValidPath (name : bytes) : bool :=
  if negb (utf8_ValidString name) then false
  else if bool_decide (name = [dot]) then true
  else forallb (fun elem =>
                  negb (bool_decide (elem = [])
                        || bool_decide (elem = [dot])
                        || bool_decide (elem = [dot; dot])))
               (split_path name).

(** The walk down the elements [elems] from a directory with [entries]
    comes to a directory that has no entry under the next element. *)
Fixpoint absent (elems : list bytes) (entries : list node) : bool :=
  match elems with
  | [] => false
  | e :: es =>
    match find_entry e entries with
    | None => true
    | Some (Dir _ _ _ entries') => absent es entries'
    | Some (File _ _ _ _) => false
    end
  end.

(** A valid name below the root that names nothing: a directory on its
    way lacks the next element.  (A path that runs through a file, and a
    name that is not valid, name nothing either; for these the
    implementations of [fs.FS] answer with different errors.) *)
Definition missing (fsys : node) (name : bytes) : bool :=
  fs_ValidPath name && negb (bool_decide (name = [dot]))
  && match fsys with
     | Dir _ _ _ entries => absent (split_path name) entries
     | File _ _ _ _ => false
     end.

(** ** The two decoders on flat documents

    [yaml.Unmarshal] (goccy/go-yaml) and [toml.Unmarshal]
    (BurntSushi/toml) are libraries that are not under src/.  [Flat]
    models them for documents of one [key: value] or [key = value] pair
    per line whose values are decimal integers or strings. *)

Module Flat.

(** A decimal integer literal: digits, the first of which is no zero
    unless it is the only one. *)
Definition literal (v : bytes) : bool :=
  Sample.all_digits v
  && match v with
     | c :: _ :: _ => negb (Ascii.eqb c "0"%char)
     | _ => true
     end.

(** Modelled from the spec: the value that [yaml.Unmarshal] gives a
    scalar.  The spec has every value keep the native number type of its
    notation and, as the tests of [readFrontmatter] do, has [value: 123]
    be the unsigned [123]: a decimal integer without a sign is a
    [uint64].  One with a minus sign, which no unsigned type holds, is an
    [int64].  Digits outside the range of the type or with a leading
    zero are not read as a decimal integer; any other text is a
    string. *)
Definition yaml_scalar (v : bytes) : result any :=
  if literal v && (Sample.decimal v <? 2 ^ 64)
  then inr (VUint64 (Sample.decimal v))
  else match v with
       | c :: ds =>
         if Ascii.eqb c "-"%char && literal ds
            && (Sample.decimal ds <=? 2 ^ 63)
         then inr (VInt64 (- Sample.decimal ds))
         else inr (VString v)
       | [] => inr VNil
       end.

(** Modelled from the spec: the value that [toml.Unmarshal] gives.  A
    decimal integer, with or without a minus sign, is an [int64], as
    [value = 456] is the signed [456] in the spec and the tests; a text
    between double quotes is a string; anything else, digits outside the
    range or with a leading zero included, is refused. *)
Definition toml_scalar (v : bytes) : result any :=
  if literal v && (Sample.decimal v <? 2 ^ 63)
  then inr (VInt64 (Sample.decimal v))
  else match v, rev v with
       | c :: ds, c' :: _ =>
         if Ascii.eqb c "-"%char && literal ds
            && (Sample.decimal ds <=? 2 ^ 63)
         then inr (VInt64 (- Sample.decimal ds))
         else if Ascii.eqb c Sample.quote && Ascii.eqb c' Sample.quote
                 && (2 <=? len v)
         then inr (VString (slice v 1 (len v - 1)))
         else inl (DecodeError (B "invalid value"))
       | _, _ => inl (DecodeError (B "invalid value"))
       end.

(** Modelled from the spec: [yaml.Unmarshal] on a flat document. *)
Definition yaml_Unmarshal (data : bytes) : result (gmap bytes any) :=
  Sample.decode_lines (B ": ") yaml_scalar (split_on LF data) ∅.

(** Modelled from the spec: [toml.Unmarshal] on a flat document. *)
Definition toml_Unmarshal (data : bytes) : result (gmap bytes any) :=
  Sample.decode_lines (B " = ") toml_scalar (split_on LF data) ∅.

End Flat.

(** * Properties *)

(** ** Byte strings *)

Lemma HasPrefix_app (p s : bytes) : bytes_.HasPrefix (p ++ s) p = true.
Proof.
  induction p as [|c p IH]; simpl; [done|].
  by rewrite Ascii.eqb_refl, IH.
Qed.

Lemma HasPrefix_inv (s p : bytes) :
  bytes_.HasPrefix s p = true -> exists r, s = p ++ r.
Proof.
  revert s; induction p as [|c p IH]; intros s H; simpl in *.
  - by exists s.
  - destruct s as [|d s]; [done|].
    apply andb_true_iff in H as [Hc Hp].
    apply Ascii.eqb_eq in Hc as ->.
    destruct (IH _ Hp) as [r ->]. by exists r.
Qed.

Lemma HasPrefix_nil (s : bytes) : bytes_.HasPrefix s [] = true.
Proof. by destruct s. Qed.

Lemma Index_unfold (s sep : bytes) :
  bytes_.Index s sep =
    if bytes_.HasPrefix s sep then 0 else
    match s with
    | [] => -1
    | _ :: s' =>
      let i := bytes_.Index s' sep in if i =? -1 then -1 else i + 1
    end.
Proof. by destruct s. Qed.

Lemma Index_prefix (s sep : bytes) :
  bytes_.HasPrefix s sep = true -> bytes_.Index s sep = 0.
Proof. intros H. by rewrite Index_unfold, H. Qed.

Lemma Index_lower (s sep : bytes) : -1 <= bytes_.Index s sep.
Proof.
  induction s as [|c s IH]; rewrite Index_unfold;
    destruct (bytes_.HasPrefix _ sep); try lia.
  cbv zeta. destruct (Z.eqb_spec (bytes_.Index s sep) (-1)); lia.
Qed.

(** [Index] answers [-1] exactly when no suffix of [s] starts with
    [sep]. *)
Lemma Index_none (s sep : bytes) :
  (forall a b, s = a ++ b -> bytes_.HasPrefix b sep = false) ->
  bytes_.Index s sep = -1.
Proof.
  induction s as [|c s IH]; intros H; rewrite Index_unfold.
  - by rewrite (H [] []).
  - rewrite (H [] (c :: s)) by done. cbv zeta.
    rewrite IH; [done|]. intros a b ->. by apply (H (c :: a) b).
Qed.

Lemma Index_found (s sep : bytes) :
  bytes_.Index s sep <> -1 ->
  exists a b, s = a ++ sep ++ b /\ bytes_.Index s sep = len a.
Proof.
  induction s as [|c s IH]; rewrite Index_unfold.
  - destruct (bytes_.HasPrefix [] sep) eqn:Hp; [|done]. intros _.
    apply HasPrefix_inv in Hp as [r Hr]. by exists [], r.
  - destruct (bytes_.HasPrefix (c :: s) sep) eqn:Hp.
    + intros _. apply HasPrefix_inv in Hp as [r Hr]. by exists [], r.
    + cbv zeta. destruct (Z.eqb_spec (bytes_.Index s sep) (-1)) as [|Hne];
        [done|]. intros _.
      destruct (IH Hne) as (a & b & -> & Hi).
      exists (c :: a), b. split; [done|].
      rewrite Hi. unfold len. simpl. lia.
Qed.

Lemma split_on_nonempty (sep : ascii) (p : bytes) : split_on sep p <> [].
Proof.
  destruct p as [|c p]; simpl; [done|].
  destruct (Ascii.eqb c sep); [done|]. by destruct (split_on sep p).
Qed.

Lemma split_on_app (sep : ascii) (a b : bytes) :
  split_on sep (a ++ sep :: b) = split_on sep a ++ split_on sep b.
Proof.
  induction a as [|c a IH]; simpl.
  - by rewrite Ascii.eqb_refl.
  - destruct (Ascii.eqb c sep); [by rewrite IH|].
    rewrite IH. destruct (split_on sep a) eqn:Ha; [|done].
    by apply split_on_nonempty in Ha.
Qed.

Lemma split_on_free (sep : ascii) (l : bytes) :
  sep ∉ l -> split_on sep l = [l].
Proof.
  induction l as [|c l IH]; intros H; simpl; [done|].
  apply not_elem_of_cons in H as [Hc Hl].
  destruct (Ascii.eqb_spec c sep) as [->|_]; [done|].
  by rewrite IH.
Qed.

Lemma split_on_join (ls : list bytes) :
  ls <> [] -> Forall (fun l => LF ∉ l) ls ->
  split_on LF (join_lines ls) = ls.
Proof.
  induction ls as [|l ls IH]; [done|]. intros _ H.
  apply Forall_cons in H as [Hl Hls].
  destruct ls as [|l' ls].
  - simpl. by apply split_on_free.
  - change (join_lines (l :: l' :: ls))
      with (l ++ LF :: join_lines (l' :: ls)).
    rewrite split_on_app, split_on_free, IH by done. done.
Qed.

(** ** The frontmatter extractor *)

Lemma delete_keys_lookup (keys : list bytes) (m : gmap bytes any) (k : bytes) :
  delete_keys keys m !! k = if decide (k ∈ keys) then None else m !! k.
Proof.
  unfold delete_keys. revert m.
  induction keys as [|key keys IH]; intros m; simpl; [done|].
  rewrite IH.
  destruct (decide (k ∈ keys)) as [Hk|Hk],
           (decide (k ∈ key :: keys)) as [Hk'|Hk']; try done.
  - exfalso. set_solver.
  - apply elem_of_cons in Hk' as [->|?]; [|done].
    by rewrite lookup_delete_eq.
  - rewrite lookup_delete_ne; [done|]. set_solver.
Qed.

Lemma finish_ok (exclude : list bytes) (m : gmap bytes any) :
  finish exclude (inr m) =
    (if decide (delete_keys exclude m = ∅) then None
     else Some (delete_keys exclude m), None).
Proof.
  unfold finish. cbv zeta.
  destruct (Z.eqb_spec (Z.of_nat (size (delete_keys exclude m))) 0) as [H|H];
    case_decide as He; try done.
  - exfalso. apply He, map_size_empty_iff. lia.
  - exfalso. apply H. by rewrite He, map_size_empty.
Qed.

Lemma finish_single (exclude : list bytes) (k : bytes) (v : any) :
  k ∉ exclude ->
  finish exclude (inr {[ k := v ]}) = (Some {[ k := v ]}, None).
Proof.
  intros Hk. rewrite finish_ok.
  assert (delete_keys exclude {[ k := v ]} = ({[ k := v ]} : gmap bytes any))
    as ->.
  { apply map_eq. intros i. rewrite delete_keys_lookup.
    case_decide as Hi; [|done].
    rewrite lookup_singleton_ne; [done|]. by intros ->. }
  rewrite decide_False; [done|]. apply map_non_empty_singleton.
Qed.

Lemma finish_nonempty (exclude : list bytes) (r : result (gmap bytes any)) :
  fst (finish exclude r) <> Some ∅.
Proof.
  destruct r as [err|m]; [done|]. rewrite finish_ok.
  case_decide; cbn [fst]; congruence.
Qed.

(** A byte that does not occur in a literal. *)
Ltac not_in_literal :=
  let H := fresh in
  intros H; vm_compute in H;
  repeat (apply elem_of_cons in H as [H|H]; [discriminate|]);
  by apply elem_of_nil in H.

Lemma mark_LF_free (n : notation) : LF ∉ mark n.
Proof. destruct n; not_in_literal. Qed.

Lemma opens_exclusive (content : bytes) :
  opens content YAML = true -> opens content TOML = false.
Proof.
  unfold opens. intros H. apply HasPrefix_inv in H as [r ->]. done.
Qed.

Section Extractor.

Variables yaml_Unmarshal toml_Unmarshal : bytes -> result (gmap bytes any).

Local Abbreviation extract :=
  (readFrontmatter yaml_Unmarshal toml_Unmarshal).
Local Abbreviation decode := (decoder yaml_Unmarshal toml_Unmarshal).

(** One round of the loop: the opening delimiter, once it is a prefix,
    is found at offset [0]. *)
Lemma readFrontmatter_loop_step exclude content u rest :
  readFrontmatter_loop exclude content (u :: rest) =
    if bytes_.HasPrefix content (Delimiter u) then
      let end_ :=
        bytes_.Index (slice_from content (len (Delimiter u)))
                     (LF :: Delimiter u) in
      if end_ =? -1 then readFrontmatter_loop exclude content rest
      else finish exclude
             (Unmarshaler u (slice content (len (Delimiter u))
                                   (len (Delimiter u) + end_)))
    else readFrontmatter_loop exclude content rest.
Proof.
  simpl. destruct (bytes_.HasPrefix content (Delimiter u)) eqn:Hp; [|done].
  rewrite (Index_prefix _ _ Hp). simpl (0 =? -1).
  cbv iota. rewrite Z.add_0_l. cbv zeta.
  destruct (_ =? -1); [done|]. unfold finish.
  by destruct (Unmarshaler u _).
Qed.

(** The extractor by cases on the two notations. *)
Lemma readFrontmatter_cases (s : Server) (content : bytes) :
  extract s content =
    if opens content YAML then
      if close_at content YAML =? -1 then (None, None)
      else finish (excludeFrontmatter s)
             (yaml_Unmarshal (block content YAML))
    else if opens content TOML then
      if close_at content TOML =? -1 then (None, None)
      else finish (excludeFrontmatter s)
             (toml_Unmarshal (block content TOML))
    else (None, None).
Proof.
  unfold readFrontmatter, unmarshalers.
  rewrite !readFrontmatter_loop_step.
  cbn [Delimiter Unmarshaler readFrontmatter_loop].
  pose proof (opens_exclusive content) as Hex.
  unfold opens, close_at, block, delimiter, mark in *. cbv zeta.
  destruct (bytes_.HasPrefix _ (B "---" ++ [LF])) eqn:Hy.
  - rewrite Hex by done. by destruct (_ =? -1).
  - destruct (bytes_.HasPrefix _ (B "+++" ++ [LF])); [|done].
    by destruct (_ =? -1).
Qed.

Lemma readFrontmatter_notation (s : Server) (content : bytes) (n : notation) :
  opens content n = true ->
  extract s content =
    if close_at content n =? -1 then (None, None)
    else finish (excludeFrontmatter s) (decode n (block content n)).
Proof.
  intros Ho. rewrite readFrontmatter_cases. destruct n.
  - by rewrite Ho.
  - destruct (opens content YAML) eqn:Hy.
    + apply opens_exclusive in Hy. congruence.
    + by rewrite Ho.
Qed.

(** C3: when the trimmed input starts with the opening delimiter of a
    notation and its closing delimiter is found, but the decoder of that
    notation rejects the text strictly between them, the extraction
    returns that decode error and no mapping; the other notation is not
    tried (whatever its decoder is, the answer is the error). *)
Theorem decode_error_is_propagated
    (s : Server) (content : bytes) (n : notation) (err : error) :
  opens content n = true ->
  close_at content n <> -1 ->
  decode n (block content n) = inl err ->
  extract s content = (None, Some err).
Proof.
  intros Ho Hc Hd. rewrite (readFrontmatter_notation _ _ n Ho), Hd.
  by destruct (Z.eqb_spec (close_at content n) (-1)).
Qed.

(** C4: after a successful decode every excluded key is gone from the
    mapping and the other keys keep their values; the extraction returns
    the remaining mapping without an error, and returns absent ([nil])
    instead when no entry remains, because the block was empty or every
    decoded key was excluded.  An empty mapping is never returned, for
    any input. *)
Theorem excluded_keys_removed_and_empty_is_absent
    (s : Server) (content : bytes) (n : notation) (m : gmap bytes any) :
  opens content n = true ->
  close_at content n <> -1 ->
  decode n (block content n) = inr m ->
  let m' := delete_keys (excludeFrontmatter s) m in
  (forall k, k ∈ excludeFrontmatter s -> m' !! k = None) /\
  (forall k, k ∉ excludeFrontmatter s -> m' !! k = m !! k) /\
  extract s content = (if decide (m' = ∅) then None else Some m', None) /\
  (forall content', fst (extract s content') <> Some ∅).
Proof.
  intros Ho Hc Hd m'.
  assert (extract s content
          = (if decide (m' = ∅) then None else Some m', None)) as Hr.
  { rewrite (readFrontmatter_notation _ _ n Ho), Hd, finish_ok.
    by destruct (Z.eqb_spec (close_at content n) (-1)). }
  repeat split.
  - intros k Hk. unfold m'. rewrite delete_keys_lookup.
    by rewrite decide_True.
  - intros k Hk. unfold m'. rewrite delete_keys_lookup.
    by rewrite decide_False.
  - exact Hr.
  - intros content'. rewrite readFrontmatter_cases.
    destruct (opens content' YAML).
    + destruct (close_at content' YAML =? -1); [done|].
      apply finish_nonempty.
    + destruct (opens content' TOML); [|done].
      destruct (close_at content' TOML =? -1); [done|].
      apply finish_nonempty.
Qed.

(** C5: when neither opening delimiter starts the trimmed content, and
    when an opening delimiter does but no closing delimiter follows it
    (the search answers [-1]), the extraction returns absent ([nil])
    and no error: a failed search makes the notation fall through. *)
Theorem no_frontmatter_is_absent (s : Server) (content : bytes) :
  (forall n, opens content n = false \/ close_at content n = -1) ->
  extract s content = (None, None).
Proof.
  intros H. rewrite readFrontmatter_cases.
  destruct (opens content YAML) eqn:Hy.
  - destruct (H YAML) as [?| ->]; [congruence|done].
  - destruct (opens content TOML) eqn:Ht; [|done].
    destruct (H TOML) as [?| ->]; [congruence|done].
Qed.

(** The search for the closing delimiter fails when the delimiter line
    only occurs as the last line: it wants a newline behind it. *)
Lemma close_at_end_not_found (n : notation) (ls : list bytes) :
  Forall (fun l => (LF ∉ l) /\ l <> mark n) ls ->
  bytes_.Index (join_lines (ls ++ [mark n])) (LF :: delimiter n) = -1.
Proof.
  intros Hls. apply Index_none. intros a b Hab.
  apply not_true_is_false. intros Hp.
  apply HasPrefix_inv in Hp as [r ->].
  assert (split_on LF (join_lines (ls ++ [mark n])) = ls ++ [mark n])
    as Hsplit.
  { apply split_on_join; [by destruct ls|].
    apply Forall_app. split.
    - eapply Forall_impl; [exact Hls|]. by intros l [? _].
    - apply Forall_singleton, mark_LF_free. }
  rewrite Hab in Hsplit. unfold delimiter in Hsplit.
  rewrite <- app_comm_cons, split_on_app in Hsplit.
  rewrite <- app_assoc in Hsplit. simpl in Hsplit.
  rewrite split_on_app, (split_on_free _ _ (mark_LF_free n)) in Hsplit.
  destruct (exists_last (split_on_nonempty LF r)) as (ys & y & Hr).
  rewrite Hr in Hsplit. simpl in Hsplit.
  replace (split_on LF a ++ mark n :: ys ++ [y])
    with ((split_on LF a ++ mark n :: ys) ++ [y]) in Hsplit
    by (by rewrite <- app_assoc).
  apply app_inj_tail in Hsplit as [Hsplit _].
  rewrite Forall_forall in Hls.
  destruct (Hls (mark n)) as [_ Hne]; [|done].
  rewrite <- Hsplit. apply elem_of_app. right. apply elem_of_cons. by left.
Qed.

(** C10: when the trimmed input begins with an opening delimiter line
    and the first (matching) closing delimiter line is its last line,
    with nothing behind it, the extraction returns absent ([nil]) and no
    error: the search wants a newline behind the closing delimiter, and
    the trimming has removed it. *)
Theorem close_at_end_of_input_is_absent
    (s : Server) (content : bytes) (n : notation) (ls : list bytes) :
  bytes_.TrimSpace content = join_lines (mark n :: ls ++ [mark n]) ->
  Forall (fun l => (LF ∉ l) /\ l <> mark n) ls ->
  extract s content = (None, None).
Proof.
  intros Ht Hls.
  assert (bytes_.TrimSpace content
          = delimiter n ++ join_lines (ls ++ [mark n])) as Ht'.
  { rewrite Ht. unfold delimiter. rewrite <- app_assoc.
    by destruct ls. }
  assert (opens content n = true) as Ho.
  { unfold opens. rewrite Ht'. apply HasPrefix_app. }
  assert (close_at content n = -1) as Hc.
  { unfold close_at, slice_from, len. rewrite Ht', Nat2Z.id, drop_app_length.
    by apply close_at_end_not_found. }
  rewrite (readFrontmatter_notation _ _ n Ho), Hc. done.
Qed.

End Extractor.

(** ** The extractor on the documents of the package's tests *)

Lemma decode_error_is_propagated_witness :
  let content :=
    Sample.doc ["---"; "title: Test Invalid YAML"; "value: [1, 2"; "---";
                "Regular content"] in
  let err := DecodeError (B "sequence end token not found") in
  opens content YAML = true /\
  close_at content YAML <> -1 /\
  Sample.yaml_Unmarshal (block content YAML) = inl err /\
  Sample.rf [] content = (None, Some err).
Proof.
  intros content err.
  assert (opens content YAML = true) as Ho by reflexivity.
  assert (close_at content YAML <> -1) as Hc by (vm_compute; lia).
  assert (Sample.yaml_Unmarshal (block content YAML) = inl err) as Hd
    by reflexivity.
  split; [exact Ho|split; [exact Hc|split; [exact Hd|]]].
  exact (decode_error_is_propagated Sample.yaml_Unmarshal
           Sample.toml_Unmarshal _ content YAML err Ho Hc Hd).
Defined.

Lemma excluded_keys_removed_and_empty_is_absent_witness :
  let content := Sample.doc ["+++"; "value = 456"; "+++"; "Body"] in
  opens content TOML = true /\
  close_at content TOML <> -1 /\
  Sample.toml_Unmarshal (block content TOML)
    = inr {[ B "value" := VInt64 456 ]} /\
  Sample.rf [B "value"] content = (None, None) /\
  Sample.rf [] (Sample.doc ["---"; EmptyString; "---"; "Body"]) = (None, None) /\
  Sample.rf [] (Sample.doc ["---"; "---"; "Body"]) = (None, None).
Proof.
  intros content.
  assert (opens content TOML = true) as Ho by reflexivity.
  assert (close_at content TOML <> -1) as Hc by (vm_compute; lia).
  assert (Sample.toml_Unmarshal (block content TOML)
          = inr {[ B "value" := VInt64 456 ]}) as Hd by reflexivity.
  split; [exact Ho|split; [exact Hc|split; [exact Hd|]]].
  destruct (excluded_keys_removed_and_empty_is_absent Sample.yaml_Unmarshal
              Sample.toml_Unmarshal
              (Sample.srv (Dir [dot] None None []) [B "value"])
              content TOML _ Ho Hc Hd) as (_ & _ & Hr & _).
  split; [exact Hr|]. split; reflexivity.
Defined.

Lemma no_frontmatter_is_absent_witness :
  (forall n, opens [] n = false \/ close_at [] n = -1) /\
  Sample.rf [] [] = (None, None).
Proof.
  assert (forall n, opens [] n = false \/ close_at [] n = -1) as H
    by (intros []; left; reflexivity).
  split; [exact H|].
  exact (no_frontmatter_is_absent Sample.yaml_Unmarshal
           Sample.toml_Unmarshal _ [] H).
Defined.

Lemma close_at_end_of_input_is_absent_witness :
  let content := Sample.doc ["---"; "title: T"; "---"; EmptyString] in
  bytes_.TrimSpace content
    = join_lines (mark YAML :: [B "title: T"] ++ [mark YAML]) /\
  Forall (fun l => (LF ∉ l) /\ l <> mark YAML) [B "title: T"] /\
  Sample.rf [] content = (None, None).
Proof.
  intros content.
  assert (bytes_.TrimSpace content
          = join_lines (mark YAML :: [B "title: T"] ++ [mark YAML])) as Ht
    by reflexivity.
  assert (Forall (fun l => (LF ∉ l) /\ l <> mark YAML) [B "title: T"]) as Hl.
  { apply Forall_singleton. split; [not_in_literal|discriminate]. }
  split; [exact Ht|split; [exact Hl|]].
  exact (close_at_end_of_input_is_absent Sample.yaml_Unmarshal
           Sample.toml_Unmarshal _ content YAML _ Ht Hl).
Defined.

(** ** The walk and the scan *)

(** Induction over a snapshot, with the property for all entries of a
    directory at hand. *)
Lemma node_induction (P : node -> Prop) :
  (forall name statErr readErr data, P (File name statErr readErr data)) ->
  (forall name statErr readDirErr entries,
     Forall P entries -> P (Dir name statErr readDirErr entries)) ->
  forall n, P n.
Proof.
  intros HF HD. fix IH 1. intros [name se re data|name se rde entries].
  - apply HF.
  - apply HD. induction entries as [|e entries IHes]; constructor.
    + apply IH.
    + apply IHes.
Qed.

Lemma feed_app {V St} (yield : V -> St -> St * bool) (vs vs' : list V) st :
  feed yield (vs ++ vs') st =
    let '(st', more) := feed yield vs st in
    if more then feed yield vs' st' else (st', false).
Proof.
  revert st. induction vs as [|v vs IH]; intros st; simpl.
  - by destruct (feed yield vs' st).
  - destruct (yield v st) as [st' [|]]; [apply IH|done].
Qed.

Lemma walk_entries_cons {St}
    (walk : bytes -> node -> St -> St * option error) name d1 dirs st :
  fs.walk_entries walk name (d1 :: dirs) st =
    match walk (path_Join name (node_name d1)) d1 st with
    | (st, Some err) =>
      if bool_decide (err = SkipDir) then (st, None) else (st, Some err)
    | (st, None) => fs.walk_entries walk name dirs st
    end.
Proof. reflexivity. Qed.

Section ScanFacts.

Variables yaml_Unmarshal toml_Unmarshal : bytes -> result (gmap bytes any).

Local Abbreviation extract :=
  (readFrontmatter yaml_Unmarshal toml_Unmarshal).
Local Abbreviation walkFn := (walk_fn yaml_Unmarshal toml_Unmarshal).
Local Abbreviation scanNode := (scan_node yaml_Unmarshal toml_Unmarshal).
Local Abbreviation scanAll := (scan yaml_Unmarshal toml_Unmarshal).
Local Abbreviation mdFiles :=
  (markdownFiles yaml_Unmarshal toml_Unmarshal).

Lemma scan_entries_cons (s : Server) path e entries :
  scan_entries (scanNode s) path (e :: entries) =
    match scanNode s (path_Join path (node_name e)) e with
    | (vs, Some err) =>
      (vs, if bool_decide (err = SkipDir) then None else Some err)
    | (vs, None) =>
      let '(vs', r) := scan_entries (scanNode s) path entries in
      (vs ++ vs', r)
    end.
Proof. reflexivity. Qed.

Lemma walk_entries_replay {St} (s : Server)
    (yield : markdownFileInfo -> St -> St * bool) path entries :
  Forall (fun n => forall path st,
            fs.walkDir path n (walkFn s yield) st
            = replay yield (scanNode s path n) st) entries ->
  forall st,
    fs.walk_entries
      (fun name1 d1 st => fs.walkDir name1 d1 (walkFn s yield) st)
      path entries st
    = replay yield (scan_entries (scanNode s) path entries) st.
Proof.
  induction 1 as [|e entries He _ IH]; intros st; [done|].
  rewrite walk_entries_cons, scan_entries_cons, He.
  unfold replay at 1.
  destruct (scanNode s (path_Join path (node_name e)) e) as [vs [err|]];
    cbn [fst snd].
  - unfold replay. cbn [fst snd].
    destruct (feed yield vs st) as [st' [|]]; [|done].
    by destruct (bool_decide (err = SkipDir)).
  - destruct (scan_entries (scanNode s) path entries) as [vs' r] eqn:Hr.
    unfold replay. cbn [fst snd]. rewrite feed_app.
    destruct (feed yield vs st) as [st' [|]]; [|done].
    rewrite IH. done.
Qed.

(** The walk with any consumer is the replay of the scan. *)
Lemma walkDir_replay {St} (s : Server)
    (yield : markdownFileInfo -> St -> St * bool) (n : node) :
  forall path st,
    fs.walkDir path n (walkFn s yield) st
    = replay yield (scanNode s path n) st.
Proof.
  induction n as [name se re data|name se rde entries IH]
    using node_induction; intros path st.
  - cbn [fs.walkDir scan_node]. cbv zeta. unfold walk_fn at 1.
    change (de_IsDir (entry_of (File name se re data))) with false.
    cbv iota. unfold replay.
    destruct (negb (bool_decide (filepath.Ext path = B ".md"))); [done|].
    destruct (readMarkdownInfo _ _ s path _) as [err|info].
    + cbn [fst snd feed]. by rewrite andb_false_r.
    + cbn [fst snd feed]. by destruct (yield info st) as [st' [|]].
  - cbn [fs.walkDir scan_node]. cbv zeta. unfold walk_fn at 1 2.
    change (de_IsDir (entry_of (Dir name se rde entries))) with true.
    cbv iota.
    destruct rde as [err|].
    + unfold replay. cbn [fst snd feed]. rewrite andb_true_r.
      by destruct (bool_decide (err = SkipDir)).
    + by apply walk_entries_replay.
Qed.

(** The iterator pushes the values of the scan to its consumer until
    the consumer stops. *)
Lemma markdownFiles_feed {St} (s : Server)
    (yield : markdownFileInfo -> St -> St * bool) (st : St) :
  mdFiles s St yield st = fst (feed yield (fst (scanAll s)) st).
Proof.
  unfold markdownFiles, fs.WalkDir, fs.Stat, scan, fs_lookup.
  rewrite decide_True by done.
  destruct (node_Info (fs_ s)) as [err|info].
  - unfold walk_fn. cbn [fst feed].
    by destruct (bool_decide (err = SkipDir) || bool_decide (err = SkipAll)).
  - rewrite walkDir_replay. unfold replay.
    destruct (feed yield _ st) as [st' more]. cbn [fst].
    destruct more; [|done].
    destruct (scanNode s [dot] (fs_ s)).2 as [e|]; [|done].
    by destruct (bool_decide (e = SkipDir) || bool_decide (e = SkipAll)).
Qed.

Lemma feed_collect (vs acc : list markdownFileInfo) :
  feed (fun v acc => (acc ++ [v], true)) vs acc = (acc ++ vs, true).
Proof.
  revert acc. induction vs as [|v vs IH]; intros acc; simpl.
  - by rewrite app_nil_r.
  - by rewrite IH, <- app_assoc.
Qed.

Lemma Collect_markdownFiles (s : Server) :
  Collect (mdFiles s) = fst (scanAll s).
Proof. unfold Collect. by rewrite markdownFiles_feed, feed_collect. Qed.

End ScanFacts.

(** ** The catalog and the readers *)

Section Catalog.

Variables yaml_Unmarshal toml_Unmarshal : bytes -> result (gmap bytes any).
Variable json_Marshal : FrontmatterOpt -> result bytes.

Local Abbreviation scanAll := (scan yaml_Unmarshal toml_Unmarshal).
Local Abbreviation scanNode := (scan_node yaml_Unmarshal toml_Unmarshal).
Local Abbreviation mdFiles := (markdownFiles yaml_Unmarshal toml_Unmarshal).
Local Abbreviation scannedBy := (scanned yaml_Unmarshal toml_Unmarshal).
Local Abbreviation resourcesBody := (resources_body json_Marshal).
Local Abbreviation resources :=
  (listResourcesOption yaml_Unmarshal toml_Unmarshal json_Marshal).

Lemma resources_body_eq (f : markdownFileInfo) opts e :
  resourcesBody f (opts, e) =
    match json_Marshal (Frontmatter_ f) with
    | inl err => ((opts, Some err), false)
    | inr desc => ((opts ++ [WithResource (resource_of desc f)], None), true)
    end.
Proof. reflexivity. Qed.

Lemma feed_resources_body (vs : list markdownFileInfo) (opts : list mcp_ServerOption) :
  match catalog json_Marshal vs with
  | inr os => feed resourcesBody vs (opts, None) = ((opts ++ os, None), true)
  | inl err =>
    exists opts', feed resourcesBody vs (opts, None) = ((opts', Some err), false)
  end.
Proof.
  revert opts. induction vs as [|f vs IH]; intros opts; cbn [feed catalog].
  - by rewrite app_nil_r.
  - rewrite resources_body_eq.
    destruct (json_Marshal (Frontmatter_ f)) as [err|desc]; [by eexists|].
    specialize (IH (opts ++ [WithResource (resource_of desc f)])).
    destruct (catalog json_Marshal vs) as [err|os].
    + destruct IH as [opts' ->]. by eexists.
    + rewrite IH. by rewrite <- app_assoc.
Qed.

(** [listResourcesOption] declares the catalog of what the scan yields;
    the error the scan ends with is not looked at. *)
Lemma listResourcesOption_catalog (s : Server) :
  resources s = catalog json_Marshal (fst (scanAll s)).
Proof.
  unfold listResourcesOption. rewrite markdownFiles_feed.
  pose proof (feed_resources_body (fst (scanAll s)) []) as H.
  destruct (catalog json_Marshal _) as [err|os].
  - destruct H as [opts' ->]. done.
  - rewrite H. done.
Qed.

Lemma catalog_inv (vs : list markdownFileInfo) (opts : list mcp_ServerOption) :
  catalog json_Marshal vs = inr opts ->
  Forall2 (fun f o => exists desc,
             json_Marshal (Frontmatter_ f) = inr desc
             /\ o = WithResource (resource_of desc f)) vs opts.
Proof.
  revert opts. induction vs as [|f vs IH]; intros opts; simpl.
  - intros [= <-]. constructor.
  - destruct (json_Marshal (Frontmatter_ f)) as [err|desc] eqn:Hj; [done|].
    destruct (catalog json_Marshal vs) as [err|os]; [done|].
    intros [= <-]. constructor; [by exists desc|by apply IH].
Qed.

Lemma readMarkdownInfo_scanned (s : Server) path d info :
  readMarkdownInfo yaml_Unmarshal toml_Unmarshal s path d = inr info ->
  scannedBy s info.
Proof.
  unfold readMarkdownInfo, scanned.
  destruct (de_Info d) as [?|i]; [done|].
  destruct (fs.ReadFile (fs_ s) path) as [?|content] eqn:Hr; [done|].
  destruct (readFrontmatter _ _ s content) as [fm [err|]] eqn:Hf; [done|].
  intros [= <-]. by exists content.
Qed.

Lemma scan_node_scanned (s : Server) (n : node) :
  forall path, Forall (scannedBy s) (fst (scanNode s path n)).
Proof.
  induction n as [name se re data|name se rde entries IH]
    using node_induction; intros path; cbn [scan_node].
  - destruct (negb _); [constructor|].
    destruct (readMarkdownInfo _ _ s path _) as [err|info] eqn:Hi;
      [constructor|].
    cbn [fst]. apply Forall_singleton. by eapply readMarkdownInfo_scanned.
  - destruct rde as [err|]; [constructor|].
    induction IH as [|e entries He _ IHes]; [constructor|].
    rewrite scan_entries_cons.
    specialize (He (path_Join path (node_name e))).
    destruct (scanNode s _ e) as [vs [err|]]; [done|].
    destruct (scan_entries _ path entries) as [vs' r].
    cbn [fst] in *. by apply Forall_app.
Qed.

Lemma scan_scanned (s : Server) : Forall (scannedBy s) (fst (scanAll s)).
Proof.
  unfold scan. destruct (node_Info (fs_ s)); [constructor|].
  apply scan_node_scanned.
Qed.

Lemma ReadResource_file (s : Server) (p : bytes) :
  ReadResource s (B "file://" ++ p) =
    match fs.ReadFile (fs_ s) p with
    | inl err => inl err
    | inr content =>
      inr {| t_URI := B "file://" ++ p; t_Text := content;
             t_MimeType := B "text/markdown" |}
    end.
Proof.
  unfold ReadResource, strings_.HasPrefix.
  rewrite HasPrefix_app. done.
Qed.


End Catalog.

Lemma scheme_of_prefix (uri sch : bytes) :
  scheme_of uri = Some sch -> exists rest, uri = sch ++ ":"%char :: rest.
Proof.
  revert sch. induction uri as [|c uri IH]; intros sch; simpl; [done|].
  destruct (Ascii.eqb_spec c ":"%char) as [->|_].
  - intros [= <-]. by exists uri.
  - destruct (scheme_of uri) as [sch'|]; [|done]. intros [= <-].
    destruct (IH sch' eq_refl) as [rest ->]. by exists rest.
Qed.

(** C8: a resource-read request whose address does not carry the [file]
    scheme gets an error and no content; the message quotes the address,
    which begins with the offending scheme. *)
Theorem unsupported_scheme_is_an_error (s : Server) (uri : bytes) :
  scheme_of uri <> Some (B "file") ->
  ReadResource s uri = inl (errorString (B "unsupported scheme: " ++ uri))
  /\ forall sch, scheme_of uri = Some sch ->
       exists rest,
         B "unsupported scheme: " ++ uri
         = B "unsupported scheme: " ++ sch ++ rest.
Proof.
  intros Hs. split.
  - unfold ReadResource, strings_.HasPrefix.
    destruct (bytes_.HasPrefix uri (B "file://")) eqn:Hp; [|done].
    apply HasPrefix_inv in Hp as [r ->]. by destruct Hs.
  - intros sch Hsch. apply scheme_of_prefix in Hsch as [rest ->].
    by eexists.
Qed.

Lemma unsupported_scheme_is_an_error_witness :
  let uri := B "http://example.com/file.md" in
  ReadResource (Sample.srv (Dir [dot] None None []) []) uri
  = inl (errorString
           (B "unsupported scheme: " ++ B "http" ++ B "://example.com/file.md")).
Proof.
  intros uri.
  assert (scheme_of uri <> Some (B "file")) as H by discriminate.
  exact (proj1 (unsupported_scheme_is_an_error _ uri H)).
Defined.

Lemma absent_find_path (elems : list bytes) :
  forall entries, absent elems entries = true -> find_path elems entries = None.
Proof.
  induction elems as [|e es IH]; intros entries H; [done|].
  cbn [absent] in H. cbn [find_path].
  destruct (find_entry e entries) as [[? ? ? ?|? ? ? entries']|] eqn:E.
  - discriminate.
  - destruct es as [|e' es]; [discriminate|]. by apply IH.
  - by destruct es.
Qed.

Lemma missing_lookup (fsys : node) (name : bytes) :
  missing fsys name = true -> fs_lookup fsys name = None.
Proof.
  unfold missing, fs_lookup. rewrite !andb_true_iff, negb_true_iff.
  intros [[_ Hn] Ha]. apply bool_decide_eq_false in Hn.
  rewrite decide_False by done.
  destruct fsys; [done|]. by apply absent_find_path.
Qed.

(** An error of the not-exist class is of no other class of [io/fs]. *)
Lemma not_exist_only (err : error) :
  errors_Is err ErrNotExist = true ->
  errors_Is err ErrInvalid = false
  /\ errors_Is err ErrPermission = false
  /\ errors_Is err ErrExist = false.
Proof.
  induction err; cbn [errors_Is]; intros H;
    repeat case_decide; try discriminate; try done; simplify_eq; auto.
Qed.




(** ** Extensions and paths *)

Lemma ext_from_app (r r' acc : bytes) :
  filepath.ext_from (r ++ slash :: r') acc = filepath.ext_from r acc.
Proof.
  revert acc. induction r as [|c r IH]; intros acc; simpl; [done|].
  destruct (Ascii.eqb c slash); [done|].
  destruct (Ascii.eqb c dot); [done|]. apply IH.
Qed.

(** The extension of a path of the walk is that of its last element. *)
Lemma Ext_join (p name : bytes) :
  filepath.Ext (path_Join p name) = filepath.Ext name.
Proof.
  unfold path_Join, filepath.Ext. case_decide; [done|].
  rewrite rev_app_distr. cbn [rev]. rewrite <- app_assoc.
  cbn [app]. apply ext_from_app.
Qed.

Lemma ext_from_dot (r acc x : bytes) :
  filepath.ext_from r acc = dot :: x ->
  exists r1 r2, r = r1 ++ dot :: r2 /\ x = rev r1 ++ acc.
Proof.
  revert acc. induction r as [|c r IH]; intros acc; simpl; [done|].
  destruct (Ascii.eqb c slash); [done|].
  destruct (Ascii.eqb_spec c dot) as [->|Hc].
  - intros [= <-]. by exists [], r.
  - intros H. destruct (IH _ H) as (r1 & r2 & -> & ->).
    exists (c :: r1), r2. split; [done|].
    cbn [rev]. by rewrite <- app_assoc.
Qed.

(** [filepath.Ext] answers [.md] exactly for the names that end in
    [.md]. *)
Lemma Ext_md (name : bytes) :
  filepath.Ext name = B ".md" <-> is_md name = true.
Proof.
  unfold filepath.Ext, is_md, HasSuffix. split.
  - intros H. change (B ".md") with (dot :: B "md") in H.
    apply ext_from_dot in H as (r1 & r2 & Hr & Hx).
    rewrite app_nil_r in Hx. rewrite Hr.
    assert (r1 = rev (B "md")) as ->
      by (rewrite Hx; symmetry; apply rev_involutive).
    done.
  - intros H. apply HasPrefix_inv in H as [r ->]. done.
Qed.

Lemma find_entry_NoDup (entries : list node) (e : node) :
  NoDup (map node_name entries) -> e ∈ entries ->
  find_entry (node_name e) entries = Some e.
Proof.
  unfold find_entry.
  induction entries as [|e' entries IH]; intros Hnd He.
  - by apply elem_of_nil in He.
  - apply NoDup_cons in Hnd as [Hnotin Hnd]. simpl.
    apply elem_of_cons in He as [->|He].
    + by rewrite bool_decide_eq_true_2.
    + rewrite bool_decide_eq_false_2; [by apply IH|].
      intros Heq. apply Hnotin. rewrite Heq.
      apply list_elem_of_In, in_map. by apply list_elem_of_In.
Qed.

Lemma valid_name_inv (name : bytes) :
  valid_name name = true -> (slash ∉ name) /\ name <> [dot].
Proof.
  unfold valid_name. rewrite !andb_true_iff, !bool_decide_eq_true.
  tauto.
Qed.

Lemma elems_of_join (p name : bytes) :
  valid_name name = true ->
  elems_of (path_Join p name) = elems_of p ++ [name].
Proof.
  intros Hv. apply valid_name_inv in Hv as [Hslash Hdot].
  unfold elems_of, path_Join, split_path.
  destruct (decide (p = [dot])) as [->|Hp].
  - rewrite decide_False by done. by apply split_on_free.
  - rewrite decide_False.
    + by rewrite split_on_app, (split_on_free _ _ Hslash).
    + by destruct p as [|c [|c' p]].
Qed.

Lemma path_Join_not_root (p name : bytes) :
  valid_name name = true -> path_Join p name <> [dot].
Proof.
  intros Hv. apply valid_name_inv in Hv as [_ Hdot].
  unfold path_Join. case_decide; [done|].
  by destruct p as [|c [|c' p]].
Qed.

Lemma reaches_root (root_entries : list node) :
  reaches root_entries [dot] root_entries.
Proof. by intros rest _. Qed.

Lemma reaches_step root_entries p entries name se rde entries' :
  reaches root_entries p entries ->
  NoDup (map node_name entries) ->
  Dir name se rde entries' ∈ entries ->
  valid_name name = true ->
  reaches root_entries (path_Join p name) entries'.
Proof.
  intros Hr Hnd Hin Hv rest Hrest.
  rewrite (elems_of_join _ _ Hv), <- app_assoc, Hr by done.
  destruct rest as [|r rest]; [done|]. cbn [app find_path].
  pose proof (find_entry_NoDup _ _ Hnd Hin) as Hf. cbn [node_name] in Hf.
  by rewrite Hf.
Qed.

Lemma reaches_file root_entries p entries (e : node) :
  reaches root_entries p entries ->
  NoDup (map node_name entries) ->
  e ∈ entries ->
  valid_name (node_name e) = true ->
  find_path (elems_of (path_Join p (node_name e))) root_entries = Some e.
Proof.
  intros Hr Hnd Hin Hv.
  rewrite (elems_of_join _ _ Hv), Hr by done.
  cbn [find_path]. by apply find_entry_NoDup.
Qed.

Lemma md_files_length (n : node) :
  forall path, length (md_files path n) = count_md n.
Proof.
  induction n as [name se re data|name se rde entries IH]
    using node_induction; intros path; cbn [md_files count_md].
  - by destruct (is_md name).
  - induction IH as [|e entries He _ IHes]; [done|].
    cbn [flat_map map list_sum]. by rewrite length_app, He, IHes.
Qed.

(** ** A scan without failures *)

Section ScanSucceeds.

Variables yaml_Unmarshal toml_Unmarshal : bytes -> result (gmap bytes any).
Variable s : Server.
Variables (root_name : bytes) (root_statErr root_readDirErr : option error).
Variable root_entries : list node.
Hypothesis fs_root :
  fs_ s = Dir root_name root_statErr root_readDirErr root_entries.

Local Abbreviation scanNode := (scan_node yaml_Unmarshal toml_Unmarshal).
Local Abbreviation describeBy := (describe yaml_Unmarshal toml_Unmarshal).
Local Abbreviation readableBy := (readable yaml_Unmarshal toml_Unmarshal).

(** The bytes a path of the walk reads are those of the entry walked. *)
Lemma ReadFile_reached p entries name se re data :
  reaches root_entries p entries ->
  NoDup (map node_name entries) ->
  File name se re data ∈ entries ->
  valid_name name = true ->
  fs.ReadFile (fs_ s) (path_Join p name)
  = match re with Some err => inl err | None => inr data end.
Proof.
  intros Hr Hnd Hin Hv.
  pose proof (reaches_file _ _ _ _ Hr Hnd Hin Hv) as Hf.
  cbn [node_name] in Hf.
  unfold fs.ReadFile, fs_lookup. rewrite fs_root.
  rewrite decide_False by (by apply path_Join_not_root).
  unfold elems_of in Hf.
  rewrite decide_False in Hf by (by apply path_Join_not_root).
  rewrite Hf. by destruct re.
Qed.

Lemma scan_file_ok p entries name se re data :
  reaches root_entries p entries ->
  NoDup (map node_name entries) ->
  File name se re data ∈ entries ->
  valid_name name = true ->
  readableBy s (File name se re data) = true ->
  scanNode s (path_Join p name) (File name se re data)
  = (map (describeBy s)
       (md_files (path_Join p name) (File name se re data)), None).
Proof.
  intros Hr Hnd Hin Hv Hok. cbn [scan_node md_files readable] in *.
  destruct (is_md name) eqn:Hmd.
  - rewrite bool_decide_eq_true_2
      by (rewrite Ext_join; by apply Ext_md).
    cbn [negb]. unfold readMarkdownInfo.
    apply andb_true_iff in Hok as [Hok Hdec].
    apply andb_true_iff in Hok as [Hse Hre].
    destruct se; [done|]. destruct re; [done|].
    cbn [de_Info entry_of node_Info].
    rewrite (ReadFile_reached _ _ _ _ _ _ Hr Hnd Hin Hv).
    unfold describe. cbn [map fst snd].
    destruct (readFrontmatter _ _ s data) as [fm [err|]]; [done|].
    done.
  - rewrite bool_decide_eq_false_2; [done|].
    rewrite Ext_join. intros H. apply Ext_md in H. congruence.
Qed.

(** The scan below a directory that the walk reaches yields the
    descriptors of its [.md] files, in the order of the walk. *)
Lemma scan_dir_ok (n : node) :
  match n with
  | File _ _ _ _ => True
  | Dir _ _ _ entries =>
    forall p,
      reaches root_entries p entries ->
      well_formed n = true -> readableBy s n = true ->
      scan_entries (scanNode s) p entries
      = (map (describeBy s) (md_files p n), None)
  end.
Proof.
  induction n as [name se re data|name se rde entries IH]
    using node_induction; [done|].
  intros p Hr Hwf Hok. cbn [well_formed readable md_files] in *.
  apply andb_true_iff in Hwf as [Hwf Hwfs].
  apply andb_true_iff in Hwf as [Hnd Hval].
  apply bool_decide_eq_true in Hnd.
  apply andb_true_iff in Hok as [_ Hoks].
  rewrite forallb_forall in Hval, Hwfs, Hoks.
  assert (forall l, (forall e, e ∈ l -> e ∈ entries) ->
            scan_entries (scanNode s) p l
            = (map (describeBy s)
                 (flat_map (fun e => md_files (path_Join p (node_name e)) e) l),
               None)) as Hall; [|by apply Hall].
  induction l as [|e l IHl]; intros Hsub; [done|].
  assert (e ∈ entries) as He by (apply Hsub; by left).
  assert (In e entries) as He' by (by apply list_elem_of_In).
  rewrite scan_entries_cons, IHl by (intros e' ?; apply Hsub; by right).
  cbn [flat_map]. rewrite map_app.
  destruct e as [ename ese ere edata|ename ese erde eentries].
  - rewrite (scan_file_ok p entries); try done.
    + by apply (Hval _ He').
    + by apply (Hoks _ He').
  - rewrite Forall_forall in IH. specialize (IH _ He).
    cbn beta iota in IH. cbn [node_name] in *.
    pose proof (Hoks _ He') as Hoke. cbn [readable] in Hoke.
    apply andb_true_iff in Hoke as [Hrde Hoke].
    destruct erde; [done|]. cbn [scan_node].
    rewrite (IH (path_Join p ename)); [done| |by apply (Hwfs _ He')|].
    + eapply reaches_step; [exact Hr|exact Hnd|exact He|].
      by apply (Hval _ He').
    + cbn [readable]. by rewrite Hoke.
Qed.

End ScanSucceeds.

(** C6, amended: for a well-formed snapshot in which every step of the
    scan succeeds and which holds exactly [N] non-directory entries whose
    name ends in [.md], the scan yields exactly [N] descriptors, one for
    each such entry in the order of the walk and none for a directory or
    a file of another extension; so do the response of
    [listMarkdownFiles] and the catalog.  The size of each descriptor is
    the number of bytes of its file. *)
Theorem scan_lists_every_markdown_file
    (yaml_Unmarshal toml_Unmarshal : bytes -> result (gmap bytes any))
    (json_Marshal : FrontmatterOpt -> result bytes) (s : Server) :
  well_formed_fs (fs_ s) = true ->
  scan_succeeds yaml_Unmarshal toml_Unmarshal s = true ->
  let docs := md_files [dot] (fs_ s) in
  let files := Collect (markdownFiles yaml_Unmarshal toml_Unmarshal s) in
  length docs = count_md (fs_ s) /\
  files = map (describe yaml_Unmarshal toml_Unmarshal s) docs /\
  length files = count_md (fs_ s) /\
  map Path files = map fst docs /\
  map Size files = map (fun pd => len (snd pd)) docs /\
  listMarkdownFiles yaml_Unmarshal toml_Unmarshal s = inr {| Files := files |} /\
  (forall opts,
     listResourcesOption yaml_Unmarshal toml_Unmarshal json_Marshal s
     = inr opts ->
     length opts = count_md (fs_ s)).
Proof.
  intros Hwf Hok docs files.
  assert (files = map (describe yaml_Unmarshal toml_Unmarshal s) docs)
    as Hfiles.
  { unfold files, docs. rewrite Collect_markdownFiles. unfold scan.
    unfold well_formed_fs in Hwf. unfold scan_succeeds in Hok.
    destruct (fs_ s) as [|rn rse rrde res] eqn:Hfs; [done|].
    apply andb_true_iff in Hwf as [_ Hwf].
    apply andb_true_iff in Hok as [Hinfo Hok].
    destruct (node_Info (Dir rn rse rrde res)); [done|].
    pose proof (scan_dir_ok yaml_Unmarshal toml_Unmarshal s rn rse rrde res
                  Hfs (Dir rn rse rrde res)) as H.
    cbn beta iota in H.
    specialize (H [dot] (reaches_root res) Hwf Hok).
    cbn [scan_node]. cbn [readable] in Hok.
    apply andb_true_iff in Hok as [Hrde _].
    destruct rrde; [done|]. by rewrite H. }
  assert (length docs = count_md (fs_ s)) as Hlen
    by apply md_files_length.
  repeat split.
  - exact Hlen.
  - exact Hfiles.
  - by rewrite Hfiles, length_map.
  - rewrite Hfiles, map_map. done.
  - rewrite Hfiles, map_map. done.
  - intros opts Hopts. rewrite listResourcesOption_catalog in Hopts.
    apply catalog_inv, Forall2_length in Hopts.
    rewrite <- Hopts, <- Collect_markdownFiles. fold files.
    by rewrite Hfiles, length_map.
Qed.

Lemma scan_lists_every_markdown_file_witness :
  let s := Sample.srv Sample.testFS [] in
  well_formed_fs (fs_ s) = true /\
  scan_succeeds Sample.yaml_Unmarshal Sample.toml_Unmarshal s = true /\
  count_md (fs_ s) = 5%nat /\
  length (Collect (markdownFiles Sample.yaml_Unmarshal
                     Sample.toml_Unmarshal s)) = count_md (fs_ s) /\
  map Size (Collect (markdownFiles Sample.yaml_Unmarshal
                       Sample.toml_Unmarshal s))
  = [8; 30; 8; 8; 11].
Proof.
  intros s.
  assert (well_formed_fs (fs_ s) = true) as Hwf by reflexivity.
  assert (scan_succeeds Sample.yaml_Unmarshal Sample.toml_Unmarshal s = true)
    as Hok by reflexivity.
  destruct (scan_lists_every_markdown_file Sample.yaml_Unmarshal
              Sample.toml_Unmarshal Sample.json_Marshal s Hwf Hok)
    as (_ & _ & Hn & _ & Hsize & _).
  split; [exact Hwf|]. split; [exact Hok|]. split; [reflexivity|].
  split; [exact Hn|]. rewrite Hsize. reflexivity.
Defined.

(** The scan stops at the first document that fails: of three [.md]
    files, the second with a malformed block, only the first is listed. *)
Lemma scan_stops_at_a_failing_file :
  count_md Sample.badFS = 3%nat /\
  listMarkdownFiles Sample.yaml_Unmarshal Sample.toml_Unmarshal
    (Sample.srv Sample.badFS [])
  = inr {| Files := [ {| Path := B "a.md"; Size := 8;
                         Frontmatter_ := None |} ] |}.
Proof. split; reflexivity. Qed.

(** C2: on a filesystem whose second document cannot be read, or has a
    malformed block, the walk does end with that error, but the error is
    dropped: [listMarkdownFiles] answers the descriptors found before it
    and no error, [listResourcesOption] declares them and reports no
    error, and the server is constructed from them. *)
Theorem scan_failure_is_swallowed :
  let a := {| Path := B "a.md"; Size := 8; Frontmatter_ := None |} in
  (forall yaml_Unmarshal toml_Unmarshal json_Marshal,
     let s := Sample.srv Sample.deniedFS [] in
     snd (scan yaml_Unmarshal toml_Unmarshal s)
     = Some (PathError (B "open") (B "b.md") ErrPermission) /\
     listMarkdownFiles yaml_Unmarshal toml_Unmarshal s
     = inr {| Files := [a] |} /\
     listResourcesOption yaml_Unmarshal toml_Unmarshal json_Marshal s
     = catalog json_Marshal [a]) /\
  let s := Sample.srv Sample.badFS [] in
  snd (scan Sample.yaml_Unmarshal Sample.toml_Unmarshal s)
  = Some (DecodeError (B "sequence end token not found")) /\
  listMarkdownFiles Sample.yaml_Unmarshal Sample.toml_Unmarshal s
  = inr {| Files := [a] |} /\
  listResourcesOption Sample.yaml_Unmarshal Sample.toml_Unmarshal
    Sample.json_Marshal s
  = inr [WithResource (resource_of (B "null") a)] /\
  forall (mcp_Server : Type)
         (mcp_NewServer : bytes -> bytes -> list mcp_ServerOption
                          -> result mcp_Server),
    New Sample.yaml_Unmarshal Sample.toml_Unmarshal Sample.json_Marshal
      mcp_Server mcp_NewServer (name s) (description s) Sample.badFS []
    = mcp_NewServer (name s) (description s)
        [WithResource (resource_of (B "null") a); WithResourceReader;
         listMarkdownFilesTool s; readMarkdownFileTool s].
Proof.
  intros a. split.
  - intros yaml_Unmarshal toml_Unmarshal json_Marshal s.
    split; [reflexivity|]. split; [reflexivity|].
    rewrite listResourcesOption_catalog. reflexivity.
  - repeat split.
Qed.

(** ** Whitespace around a document *)

Lemma asciiSpace_ascii (c : ascii) :
  bytes_.asciiSpace c = true -> (utf8.RuneSelf <=? bv c) = false.
Proof.
  unfold bytes_.asciiSpace, utf8.RuneSelf. cbv zeta.
  rewrite !orb_true_iff, !Z.eqb_eq, Z.leb_gt. lia.
Qed.

Lemma trim_start_spaces (ws s : bytes) :
  Forall (fun c => bytes_.asciiSpace c = true) ws ->
  bytes_.trim_start (ws ++ s) = bytes_.trim_start s.
Proof.
  induction 1 as [|c ws Hc _ IH]; [done|].
  cbn [app bytes_.trim_start]. by rewrite (asciiSpace_ascii _ Hc), Hc.
Qed.

Lemma trim_stop_spaces (ws r : bytes) :
  Forall (fun c => bytes_.asciiSpace c = true) ws ->
  bytes_.trim_stop (ws ++ r) = bytes_.trim_stop r.
Proof.
  induction 1 as [|c ws Hc _ IH]; [done|].
  cbn [app bytes_.trim_stop]. by rewrite (asciiSpace_ascii _ Hc), Hc.
Qed.

Lemma trim_stop_keep (r : bytes) (z : ascii) :
  bv z < utf8.RuneSelf -> bytes_.asciiSpace z = false ->
  bytes_.trim_stop (z :: r) = rev (z :: r).
Proof.
  intros Hz Hsz. cbn [bytes_.trim_stop].
  by rewrite (proj2 (Z.leb_gt _ _) Hz), Hsz.
Qed.

(** A text that begins and ends with an ASCII byte that is no space
    comes out of [TrimSpace] as it is, whatever ASCII space surrounds
    it. *)
Lemma TrimSpace_padded (ws1 ws2 mid : bytes) (a z : ascii) :
  Forall (fun c => bytes_.asciiSpace c = true) ws1 ->
  Forall (fun c => bytes_.asciiSpace c = true) ws2 ->
  bv a < utf8.RuneSelf -> bytes_.asciiSpace a = false ->
  bv z < utf8.RuneSelf -> bytes_.asciiSpace z = false ->
  bytes_.TrimSpace (ws1 ++ (a :: mid ++ [z]) ++ ws2) = a :: mid ++ [z].
Proof.
  intros H1 H2 Ha Hsa Hz Hsz. unfold bytes_.TrimSpace.
  rewrite (trim_start_spaces _ _ H1). cbn [app bytes_.trim_start].
  rewrite (proj2 (Z.leb_gt _ _) Ha), Hsa.
  change (a :: (mid ++ [z]) ++ ws2) with (((a :: mid) ++ [z]) ++ ws2).
  rewrite rev_app_distr, trim_stop_spaces by (by apply Forall_rev).
  rewrite rev_unit, (trim_stop_keep _ _ Hz Hsz), <- rev_unit.
  apply rev_involutive.
Qed.

(** ** Trimming a padded text *)

(** A continuation byte is at least [0x80]: the lower bounds of the
    accept ranges that the first bytes select. *)
Lemma acceptRanges_lower (b : Z) :
  utf8.first b < 240 ->
  128 <= fst (utf8.acceptRanges (Z.shiftr (utf8.first b) 4)).
Proof.
  unfold utf8.first.
  repeat (match goal with |- context [if ?c then _ else _] =>
            destruct c end; try lia);
    intros _; vm_compute; discriminate.
Qed.

Lemma first_size (b : Z) :
  utf8.first b < 240 -> Z.land (utf8.first b) 7 <= 4.
Proof.
  unfold utf8.first.
  repeat (match goal with |- context [if ?c then _ else _] =>
            destruct c end; try lia);
    intros _; vm_compute; discriminate.
Qed.

Lemma DecodeRune_size (p : bytes) :
  0 <= snd (utf8.DecodeRune p) <= len p.
Proof.
  unfold utf8.DecodeRune, len.
  destruct p as [|p0 [|c1 [|c2 [|c3 t]]]]; cbn [length snd];
    repeat (match goal with
            | |- context [let '(_, _) := ?e in _] => destruct e
            | |- context [if ?c then _ else _] => destruct c
            end; cbn [snd]); lia.
Qed.

(** ASCII bytes behind a text do not change the rune it starts with. *)
Lemma DecodeRune_app (p ws : bytes) :
  p <> [] ->
  Forall (fun c => bv c < utf8.RuneSelf) ws ->
  utf8.DecodeRune (p ++ ws) = utf8.DecodeRune p.
Proof.
  unfold utf8.RuneSelf.
  destruct p as [|p0 t]; [done|]. intros _ Hws.
  cbn [app]. unfold utf8.DecodeRune.
  destruct (Z.leb_spec 240 (utf8.first (bv p0))) as [|Hx]; [done|].
  pose proof (acceptRanges_lower _ Hx) as Hlo.
  destruct (utf8.acceptRanges _) as [lo hi]. cbn [fst] in Hlo.
  pose proof (first_size _ Hx) as Hsz.
  set (sz := Z.land (utf8.first (bv p0)) 7) in *. clearbody sz.
  unfold utf8.locb, utf8.hicb, len.
  destruct t as [|c1 [|c2 [|c3 t]]];
    destruct Hws as [|w1 ws Hw1 [|w2 ws' Hw2 [|w3 ws'' Hw3 _]]];
    cbn [app length];
    repeat (match goal with
            | |- context [Z.ltb ?a ?b] => destruct (Z.ltb_spec a b)
            | |- context [Z.leb ?a ?b] => destruct (Z.leb_spec a b)
            end; cbn [orb]); try done;
    rewrite ?length_app in *; cbn [length] in *; lia.
Qed.

Lemma asciiSpace_IsSpace (c : ascii) :
  bytes_.asciiSpace c = true -> unicode.IsSpace (bv c) = true.
Proof.
  unfold bytes_.asciiSpace, unicode.IsSpace. cbv zeta.
  rewrite !orb_true_iff, !Z.eqb_eq. intros H.
  destruct H as [[[[[-> | ->] | ->] | ->] | ->] | ->]; reflexivity.
Qed.

Lemma asciiSpace_below (ws : bytes) :
  Forall (fun c => bytes_.asciiSpace c = true) ws ->
  Forall (fun c => bv c < utf8.RuneSelf) ws.
Proof.
  intros H. eapply Forall_impl; [exact H|]. intros c Hc.
  apply asciiSpace_ascii in Hc. by apply Z.leb_gt in Hc.
Qed.

(** *** The search from the left *)

Lemma indexFunc_spaces (ws : bytes) :
  Forall (fun c => bytes_.asciiSpace c = true) ws ->
  forall skip pos,
    bytes_.indexFunc_from unicode.IsSpace false ws skip pos = -1.
Proof.
  induction 1 as [|c ws Hc _ IH]; intros skip pos; [done|].
  cbn [bytes_.indexFunc_from]. destruct skip as [|k]; [|apply IH].
  rewrite (asciiSpace_ascii _ Hc), (asciiSpace_IsSpace _ Hc). apply IH.
Qed.

Lemma indexFunc_app (s ws : bytes) :
  Forall (fun c => bytes_.asciiSpace c = true) ws ->
  forall skip pos,
    bytes_.indexFunc_from unicode.IsSpace false (s ++ ws) skip pos
    = bytes_.indexFunc_from unicode.IsSpace false s skip pos.
Proof.
  intros Hws. induction s as [|c s IH]; intros skip pos.
  - cbn [app]. rewrite (indexFunc_spaces _ Hws). by destruct skip.
  - cbn [app bytes_.indexFunc_from]. destruct skip as [|k]; [|apply IH].
    change (c :: s ++ ws) with ((c :: s) ++ ws).
    rewrite (DecodeRune_app (c :: s) ws) by (done || by apply asciiSpace_below).
    destruct (if utf8.RuneSelf <=? bv c then utf8.DecodeRune (c :: s)
              else (bv c, 1)) as [r wid].
    by rewrite IH.
Qed.

Lemma indexFunc_bound (f : Z -> bool) (truth : bool) (s : bytes) :
  forall skip pos,
    bytes_.indexFunc_from f truth s skip pos = -1
    \/ pos <= bytes_.indexFunc_from f truth s skip pos < pos + len s.
Proof.
  unfold len. induction s as [|c s IH]; intros skip pos; [by left|].
  cbn [bytes_.indexFunc_from length]. destruct skip as [|k].
  - destruct (if utf8.RuneSelf <=? bv c then utf8.DecodeRune (c :: s)
              else (bv c, 1)) as [r wid].
    destruct (eqb (f r) truth); [right; lia|].
    destruct (IH (Z.to_nat wid - 1)%nat (pos + 1)); [by left|right; lia].
  - destruct (IH k (pos + 1)); [by left|right; lia].
Qed.

Lemma TrimLeftFunc_app (s ws : bytes) :
  Forall (fun c => bytes_.asciiSpace c = true) ws ->
  bytes_.TrimLeftFunc (s ++ ws) unicode.IsSpace
  = if bytes_.indexFunc s unicode.IsSpace false =? -1 then []
    else bytes_.TrimLeftFunc s unicode.IsSpace ++ ws.
Proof.
  intros Hws. unfold bytes_.TrimLeftFunc, bytes_.indexFunc. cbv zeta.
  rewrite (indexFunc_app _ _ Hws).
  destruct (Z.eqb_spec (bytes_.indexFunc_from unicode.IsSpace false s 0 0)
                       (-1)) as [|Hi]; [done|].
  destruct (indexFunc_bound unicode.IsSpace false s 0 0) as [|Hb]; [done|].
  unfold slice_from, len in *. apply drop_app_le. lia.
Qed.

(** *** The search from the right *)

Lemma slice_0 {A} (s : list A) (i : Z) : slice s 0 i = take (Z.to_nat i) s.
Proof. unfold slice. by rewrite Z.sub_0_r. Qed.

Lemma back_to_start_le (n : nat) (p : bytes) (lim : Z) :
  forall start, utf8.back_to_start n p start lim <= start.
Proof.
  induction n as [|n IH]; intros start; cbn [utf8.back_to_start]; [lia|].
  destruct (start <? lim); [lia|].
  destruct (utf8.RuneStart _); [lia|].
  specialize (IH (start - 1)). lia.
Qed.

Lemma DecodeLastRune_size (p : bytes) :
  p <> [] -> 1 <= snd (utf8.DecodeLastRune p).
Proof.
  intros Hp. unfold utf8.DecodeLastRune. cbv zeta.
  assert (0 < len p) as Hl by (unfold len; destruct p; [done|cbn; lia]).
  destruct (Z.eqb_spec (len p) 0); [lia|].
  destruct (_ <? utf8.RuneSelf); [cbn; lia|].
  pose proof (back_to_start_le (S (Z.to_nat utf8.UTFMax)) p
                (Z.max 0 (len p - utf8.UTFMax)) (len p - 1 - 1)) as Hb.
  destruct (utf8.DecodeRune _) as [r size].
  destruct (Z.eqb_spec
              (Z.max 0 (utf8.back_to_start (S (Z.to_nat utf8.UTFMax)) p
                          (len p - 1 - 1)
                          (Z.max 0 (len p - utf8.UTFMax))) + size)
              (len p)); cbn [negb snd]; lia.
Qed.

(** The search looks only at the bytes before [i]. *)
Lemma lastIndexFunc_prefix (f : Z -> bool) (truth : bool) (s x : bytes) :
  forall n i,
    i <= len s ->
    bytes_.lastIndexFunc_from n f truth (s ++ x) i
    = bytes_.lastIndexFunc_from n f truth s i.
Proof.
  induction n as [|n IH]; intros i Hi; [done|].
  cbn [bytes_.lastIndexFunc_from].
  destruct (Z.leb_spec i 0) as [|Hpos]; [done|].
  assert (utf8.at_ (s ++ x) (i - 1) = utf8.at_ s (i - 1)) as ->.
  { unfold utf8.at_, len in *. f_equal. apply app_nth1. lia. }
  assert (slice (s ++ x) 0 i = slice s 0 i) as ->.
  { rewrite !slice_0. unfold len in *. apply take_app_le. lia. }
  assert (slice s 0 i <> []) as Hne.
  { rewrite slice_0. unfold len in *. intros H.
    apply (f_equal length) in H. rewrite length_take in H. cbn in H. lia. }
  pose proof (DecodeLastRune_size _ Hne) as Hsz.
  destruct (if utf8.RuneSelf <=? utf8.at_ s (i - 1)
            then utf8.DecodeLastRune (slice s 0 i)
            else (utf8.at_ s (i - 1), 1)) as [r size] eqn:E.
  assert (1 <= size) as Hs.
  { destruct (utf8.RuneSelf <=? utf8.at_ s (i - 1)).
    - by rewrite E in Hsz.
    - injection E as _ <-. lia. }
  destruct (eqb (f r) truth); [done|]. apply IH. lia.
Qed.

Lemma lastIndexFunc_bound (f : Z -> bool) (truth : bool) (s : bytes) :
  forall n i,
    i <= len s ->
    bytes_.lastIndexFunc_from n f truth s i = -1
    \/ bytes_.lastIndexFunc_from n f truth s i < i.
Proof.
  induction n as [|n IH]; intros i Hi; [by left|].
  cbn [bytes_.lastIndexFunc_from].
  destruct (Z.leb_spec i 0) as [|Hpos]; [by left|].
  assert (slice s 0 i <> []) as Hne.
  { rewrite slice_0. unfold len in *. intros H.
    apply (f_equal length) in H. rewrite length_take in H. cbn in H. lia. }
  pose proof (DecodeLastRune_size _ Hne) as Hsz.
  destruct (if utf8.RuneSelf <=? utf8.at_ s (i - 1)
            then utf8.DecodeLastRune (slice s 0 i)
            else (utf8.at_ s (i - 1), 1)) as [r size] eqn:E.
  assert (1 <= size) as Hs.
  { destruct (utf8.RuneSelf <=? utf8.at_ s (i - 1)).
    - by rewrite E in Hsz.
    - injection E as _ <-. lia. }
  destruct (eqb (f r) truth); [right; lia|].
  destruct (IH (i - size)); [lia|by left|right; lia].
Qed.

(** One round of the search over a trailing ASCII space. *)
Lemma lastIndexFunc_space (n : nat) (t : bytes) (w : ascii) :
  bytes_.asciiSpace w = true ->
  bytes_.lastIndexFunc_from (S n) unicode.IsSpace false (t ++ [w]) (len t + 1)
  = bytes_.lastIndexFunc_from n unicode.IsSpace false (t ++ [w]) (len t).
Proof.
  intros Hw. cbn [bytes_.lastIndexFunc_from].
  destruct (Z.leb_spec (len t + 1) 0) as [H|_]; [unfold len in H; lia|].
  replace (len t + 1 - 1) with (len t) by lia.
  assert (utf8.at_ (t ++ [w]) (len t) = bv w) as ->.
  { unfold utf8.at_, len. rewrite Nat2Z.id.
    by rewrite app_nth2, Nat.sub_diag by lia. }
  rewrite (asciiSpace_ascii _ Hw), (asciiSpace_IsSpace _ Hw).
  cbn [eqb]. by replace (len t + 1 - 1) with (len t) by lia.
Qed.

Lemma lastIndexFunc_app (s ws : bytes) :
  Forall (fun c => bytes_.asciiSpace c = true) ws ->
  bytes_.lastIndexFunc (s ++ ws) unicode.IsSpace false
  = bytes_.lastIndexFunc s unicode.IsSpace false.
Proof.
  induction ws as [|w ws IH] using rev_ind; intros Hws.
  - by rewrite app_nil_r.
  - apply Forall_app in Hws as [Hws Hw]. apply Forall_cons_1 in Hw as [Hw _].
    rewrite <- (IH Hws). rewrite app_assoc.
    set (t := s ++ ws). unfold bytes_.lastIndexFunc.
    assert (length (t ++ [w]) = S (length t)) as ->
      by (rewrite length_app; cbn; lia).
    assert (len (t ++ [w]) = len t + 1) as ->
      by (unfold len; rewrite length_app; cbn; lia).
    rewrite (lastIndexFunc_space _ _ _ Hw).
    apply lastIndexFunc_prefix. lia.
Qed.

Lemma TrimRightFunc_app (s ws : bytes) :
  Forall (fun c => bytes_.asciiSpace c = true) ws ->
  bytes_.TrimRightFunc (s ++ ws) unicode.IsSpace
  = bytes_.TrimRightFunc s unicode.IsSpace.
Proof.
  intros Hws. unfold bytes_.TrimRightFunc. cbv zeta.
  rewrite (lastIndexFunc_app _ _ Hws).
  set (i := bytes_.lastIndexFunc s unicode.IsSpace false).
  assert (i = -1 \/ i < len s) as [Hi|Hi].
  { apply (lastIndexFunc_bound unicode.IsSpace false s (S (length s))). lia. }
  all: clearbody i.
  - by rewrite Hi.
  - destruct (Z.leb_spec 0 i) as [Hpos|Hneg]; cbn [andb].
    + assert (utf8.at_ (s ++ ws) i = utf8.at_ s i) as ->.
      { unfold utf8.at_, len in *. f_equal. apply app_nth1. lia. }
      assert (slice_from (s ++ ws) i = slice_from s i ++ ws) as ->.
      { unfold slice_from, len in *. apply drop_app_le. lia. }
      assert (slice_from s i <> []) as Hne.
      { unfold slice_from, len in *. intros H.
        apply (f_equal length) in H. rewrite length_drop in H. cbn in H. lia. }
      rewrite (DecodeRune_app _ _ Hne (asciiSpace_below _ Hws)).
      pose proof (DecodeRune_size (slice_from s i)) as Hsz.
      assert (len (slice_from s i) = len s - i) as Hl.
      { unfold slice_from, len in *. rewrite length_drop. lia. }
      rewrite !slice_0. unfold len in *.
      destruct (utf8.RuneSelf <=? utf8.at_ s i); apply take_app_le; lia.
    + rewrite !slice_0.
      replace (Z.to_nat (i + 1)) with 0%nat by lia. done.
Qed.

Lemma TrimFunc_app (s ws : bytes) :
  Forall (fun c => bytes_.asciiSpace c = true) ws ->
  bytes_.TrimFunc (s ++ ws) unicode.IsSpace
  = bytes_.TrimFunc s unicode.IsSpace.
Proof.
  intros Hws. unfold bytes_.TrimFunc. rewrite (TrimLeftFunc_app _ _ Hws).
  unfold bytes_.TrimLeftFunc. cbv zeta.
  destruct (_ =? -1); [done|]. by apply TrimRightFunc_app.
Qed.

(** *** [TrimSpace] *)

Lemma trim_start_app (s ws : bytes) :
  Forall (fun c => bytes_.asciiSpace c = true) ws ->
  bytes_.trim_start (s ++ ws)
  = match bytes_.trim_start s with
    | inr t => inr t
    | inl [] => inl []
    | inl s1 => inl (s1 ++ ws)
    end.
Proof.
  intros Hws. induction s as [|c s IH].
  - cbn [app bytes_.trim_start].
    rewrite <- (app_nil_r ws). by rewrite (trim_start_spaces _ _ Hws).
  - cbn [app bytes_.trim_start].
    change (c :: s ++ ws) with ((c :: s) ++ ws).
    destruct (utf8.RuneSelf <=? bv c); [by rewrite (TrimFunc_app _ _ Hws)|].
    by destruct (bytes_.asciiSpace c).
Qed.

(** ASCII space around a text, whatever the text is, does not change
    what [TrimSpace] leaves of it. *)
Lemma TrimSpace_pad (ws1 ws2 s : bytes) :
  Forall (fun c => bytes_.asciiSpace c = true) ws1 ->
  Forall (fun c => bytes_.asciiSpace c = true) ws2 ->
  bytes_.TrimSpace (ws1 ++ s ++ ws2) = bytes_.TrimSpace s.
Proof.
  intros H1 H2. unfold bytes_.TrimSpace.
  rewrite (trim_start_spaces _ _ H1), (trim_start_app _ _ H2).
  destruct (bytes_.trim_start s) as [[|a s1]|t]; [done| |done].
  rewrite rev_app_distr. apply trim_stop_spaces. by apply Forall_rev.
Qed.

(** X1: ASCII white space before and behind a document is not seen by
    the extractor: whatever the document is, the extraction of the
    padded document is that of the document itself. *)
Theorem surrounding_space_is_ignored
    (yaml_Unmarshal toml_Unmarshal : bytes -> result (gmap bytes any))
    (s : Server) (ws1 ws2 content : bytes) :
  Forall (fun c => bytes_.asciiSpace c = true) ws1 ->
  Forall (fun c => bytes_.asciiSpace c = true) ws2 ->
  readFrontmatter yaml_Unmarshal toml_Unmarshal s (ws1 ++ content ++ ws2)
  = readFrontmatter yaml_Unmarshal toml_Unmarshal s content.
Proof.
  intros H1 H2. unfold readFrontmatter.
  by rewrite (TrimSpace_pad _ _ _ H1 H2).
Qed.

Lemma surrounding_space_is_ignored_witness :
  let core :=
    Sample.doc ["---"; "title: Test YAML Whitespace"; "---"; EmptyString;
                EmptyString; "Regular content"]
    ++ [" "%char; "195"%char; "169"%char] in
  Sample.rf [] ([LF; LF] ++ core ++ [LF; " "%char])
  = Sample.rf [] core.
Proof.
  intros core.
  assert (Forall (fun c => bytes_.asciiSpace c = true) [LF; LF]) as H1
    by (repeat constructor).
  assert (Forall (fun c => bytes_.asciiSpace c = true) [LF; " "%char]) as H2
    by (repeat constructor).
  exact (surrounding_space_is_ignored Sample.yaml_Unmarshal
           Sample.toml_Unmarshal (Sample.srv (Dir [dot] None None []) [])
           [LF; LF] [LF; " "%char] core H1 H2).
Defined.

(** X2: the iterator honours a consumer that stops early: pushing the
    documents to any consumer leaves it in the state of being fed the
    full list of the scan up to and including the document at which it
    stops, and not further. *)
Theorem early_stop_is_honoured
    (yaml_Unmarshal toml_Unmarshal : bytes -> result (gmap bytes any))
    (s : Server) (St : Type)
    (yield : markdownFileInfo -> St -> St * bool) (st : St) :
  markdownFiles yaml_Unmarshal toml_Unmarshal s St yield st
  = fst (feed yield
           (Collect (markdownFiles yaml_Unmarshal toml_Unmarshal s)) st).
Proof. by rewrite Collect_markdownFiles, markdownFiles_feed. Qed.

(** ** The block between the delimiters *)

Lemma HasPrefix_other_line (l m r : bytes) :
  LF ∉ l -> LF ∉ m -> l <> m ->
  bytes_.HasPrefix (l ++ LF :: r) (m ++ [LF]) = false.
Proof.
  revert l. induction m as [|d m IH]; intros l Hl Hm Hne.
  - destruct l as [|c l]; [done|]. cbn [app bytes_.HasPrefix].
    apply not_elem_of_cons in Hl as [Hc _].
    by rewrite (proj2 (Ascii.eqb_neq c LF)) by congruence.
  - apply not_elem_of_cons in Hm as [Hd Hm].
    destruct l as [|c l]; cbn [app bytes_.HasPrefix].
    + by rewrite (proj2 (Ascii.eqb_neq LF d)) by congruence.
    + apply not_elem_of_cons in Hl as [_ Hl].
      destruct (Ascii.eqb_spec c d) as [->|]; [|done].
      cbn [andb]. apply IH; [done|done|congruence].
Qed.

(** A search for something that starts with a newline passes over a text
    without newlines. *)
Lemma Index_skip_line (l rest sep : bytes) :
  LF ∉ l ->
  bytes_.Index (l ++ rest) (LF :: sep) =
    let i := bytes_.Index rest (LF :: sep) in
    if i =? -1 then -1 else len l + i.
Proof.
  induction l as [|c l IH]; intros Hl; cbv zeta.
  - cbn [app]. unfold len. cbn [length].
    destruct (Z.eqb_spec (bytes_.Index rest (LF :: sep)) (-1)); lia.
  - apply not_elem_of_cons in Hl as [Hc Hl].
    cbn [app]. rewrite Index_unfold. cbn [bytes_.HasPrefix].
    destruct (Ascii.eqb_spec c LF) as [|_]; [congruence|].
    cbn [andb]. cbv zeta. rewrite (IH Hl). cbv zeta.
    destruct (Z.eqb_spec (bytes_.Index rest (LF :: sep)) (-1)) as [|Hi];
      [done|].
    pose proof (Index_lower rest (LF :: sep)).
    destruct (Z.eqb_spec (len l + bytes_.Index rest (LF :: sep)) (-1));
      unfold len in *; cbn [length]; lia.
Qed.

(** The closing delimiter is found right behind the lines of the block,
    when none of them but the first is the delimiter line. *)
Lemma close_found (n : notation) (ls : list bytes) :
  forall (l1 body : bytes),
    LF ∉ l1 ->
    Forall (fun l => (LF ∉ l) /\ l <> mark n) ls ->
    bytes_.Index (join_lines (l1 :: ls) ++ LF :: delimiter n ++ body)
                 (LF :: delimiter n)
    = len (join_lines (l1 :: ls)).
Proof.
  induction ls as [|l2 ls IH]; intros l1 body Hl1 Hls.
  - cbn [join_lines]. rewrite (Index_skip_line _ _ _ Hl1). cbv zeta.
    rewrite Index_prefix by apply (HasPrefix_app (LF :: delimiter n)).
    cbn. lia.
  - apply Forall_cons in Hls as [[Hl2 Hne] Hls].
    change (join_lines (l1 :: l2 :: ls))
      with (l1 ++ LF :: join_lines (l2 :: ls)).
    rewrite <- app_assoc. rewrite (Index_skip_line _ _ _ Hl1). cbv zeta.
    cbn [app]. rewrite Index_unfold.
    assert (bytes_.HasPrefix
              (LF :: join_lines (l2 :: ls) ++ LF :: delimiter n ++ body)
              (LF :: delimiter n) = false) as ->.
    { cbn [bytes_.HasPrefix]. rewrite Ascii.eqb_refl. cbn [andb].
      unfold delimiter at 2.
      destruct ls as [|l3 ls].
      - cbn [join_lines]. apply HasPrefix_other_line; [done|apply mark_LF_free|done].
      - change (join_lines (l2 :: l3 :: ls))
          with (l2 ++ LF :: join_lines (l3 :: ls)).
        rewrite <- app_assoc. cbn [app].
        apply HasPrefix_other_line; [done|apply mark_LF_free|done]. }
    cbv zeta. rewrite (IH l2 body Hl2 Hls).
    unfold len. rewrite length_app. cbn [length].
    destruct (Z.eqb_spec (Z.of_nat (length (join_lines (l2 :: ls)))) (-1));
      [lia|].
    destruct (Z.eqb_spec (Z.of_nat (length (join_lines (l2 :: ls))) + 1) (-1));
      lia.
Qed.

(** X3: the extractor decodes exactly the lines between the opening
    delimiter line and the first later delimiter line that a newline
    follows, and what stands behind that line - the body, with whatever
    delimiter lines it holds - has no part in the result. *)
Theorem block_between_delimiters_is_decoded
    (yaml_Unmarshal toml_Unmarshal : bytes -> result (gmap bytes any))
    (s : Server) (content : bytes) (n : notation)
    (l1 : bytes) (ls : list bytes) (body : bytes) :
  bytes_.TrimSpace content
  = join_lines (mark n :: l1 :: ls) ++ LF :: delimiter n ++ body ->
  LF ∉ l1 ->
  Forall (fun l => (LF ∉ l) /\ l <> mark n) ls ->
  readFrontmatter yaml_Unmarshal toml_Unmarshal s content
  = finish (excludeFrontmatter s)
      (decoder yaml_Unmarshal toml_Unmarshal n (join_lines (l1 :: ls))).
Proof.
  intros Ht Hl1 Hls.
  assert (bytes_.TrimSpace content
          = delimiter n
            ++ (join_lines (l1 :: ls) ++ LF :: delimiter n ++ body)) as Ht'.
  { rewrite Ht. unfold delimiter.
    change (join_lines (mark n :: l1 :: ls))
      with (mark n ++ LF :: join_lines (l1 :: ls)).
    by rewrite <- !app_assoc. }
  assert (opens content n = true) as Ho.
  { unfold opens. rewrite Ht'. apply HasPrefix_app. }
  assert (close_at content n = len (join_lines (l1 :: ls))) as Hc.
  { unfold close_at, slice_from, len at 1.
    rewrite Ht', Nat2Z.id, drop_app_length. by apply close_found. }
  assert (block content n = join_lines (l1 :: ls)) as Hb.
  { unfold block, slice. rewrite Hc, Ht'. unfold len.
    rewrite Nat2Z.id, drop_app_length.
    replace (Z.to_nat
               (Z.of_nat (length (delimiter n))
                + Z.of_nat (length (join_lines (l1 :: ls)))
                - Z.of_nat (length (delimiter n))))
      with (length (join_lines (l1 :: ls))) by lia.
    apply take_app_length. }
  rewrite (readFrontmatter_notation _ _ _ _ n Ho), Hc, Hb.
  destruct (Z.eqb_spec (len (join_lines (l1 :: ls))) (-1)) as [H|_];
    [unfold len in H; lia|done].
Qed.

Lemma block_between_delimiters_is_decoded_witness :
  let content :=
    Sample.doc ["---"; "title: Test YAML"; "---";
                "Content with --- delimiter"; "---"; "more"] in
  Sample.rf [] content
  = (Some {[ B "title" := VString (B "Test YAML") ]}, None).
Proof.
  intros content.
  assert (bytes_.TrimSpace content
          = join_lines (mark YAML :: B "title: Test YAML" :: [])
            ++ LF :: delimiter YAML
            ++ Sample.doc ["Content with --- delimiter"; "---"; "more"])
    as Ht by reflexivity.
  assert (LF ∉ B "title: Test YAML") as Hl by not_in_literal.
  exact (block_between_delimiters_is_decoded Sample.yaml_Unmarshal
           Sample.toml_Unmarshal (Sample.srv (Dir [dot] None None []) [])
           content YAML _ [] _ Ht Hl (Forall_nil_2 _)).
Defined.

(** ** The excluded keys *)

Lemma finish_ext (ks1 ks2 : list bytes) (r : result (gmap bytes any)) :
  (forall k, k ∈ ks1 <-> k ∈ ks2) -> finish ks1 r = finish ks2 r.
Proof.
  intros H. destruct r as [err|m]; [done|]. unfold finish.
  assert (delete_keys ks1 m = delete_keys ks2 m) as ->; [|done].
  apply map_eq. intros k. rewrite !delete_keys_lookup.
  destruct (decide (k ∈ ks1)) as [H1|H1], (decide (k ∈ ks2)) as [H2|H2];
    try done; exfalso; apply H in H1 || apply H in H2; done.
Qed.

Lemma finish_inv (ks : list bytes) (r : result (gmap bytes any))
    (m : gmap bytes any) (e : option error) :
  finish ks r = (Some m, e) ->
  e = None /\ m <> ∅ /\ forall k, k ∈ ks -> m !! k = None.
Proof.
  destruct r as [err|m0]; [done|]. rewrite finish_ok.
  case_decide as Hm; [done|]. intros [= <- <-].
  repeat split; [done|]. intros k Hk.
  rewrite delete_keys_lookup. by rewrite decide_True.
Qed.

Lemma readFrontmatter_inv
    (yaml_Unmarshal toml_Unmarshal : bytes -> result (gmap bytes any))
    (s : Server) (content : bytes) (m : gmap bytes any) (e : option error) :
  readFrontmatter yaml_Unmarshal toml_Unmarshal s content = (Some m, e) ->
  e = None /\ m <> ∅ /\ forall k, k ∈ excludeFrontmatter s -> m !! k = None.
Proof.
  rewrite readFrontmatter_cases.
  destruct (opens content YAML).
  - destruct (close_at content YAML =? -1); [done|]. apply finish_inv.
  - destruct (opens content TOML); [|done].
    destruct (close_at content TOML =? -1); [done|]. apply finish_inv.
Qed.

(** X4: the excluded keys act as a set: two servers whose lists of
    excluded keys hold the same keys, in whatever order and however often,
    extract the same frontmatter from every document. *)
Theorem excluded_keys_act_as_a_set
    (yaml_Unmarshal toml_Unmarshal : bytes -> result (gmap bytes any))
    (s1 s2 : Server) (content : bytes) :
  (forall k, k ∈ excludeFrontmatter s1 <-> k ∈ excludeFrontmatter s2) ->
  readFrontmatter yaml_Unmarshal toml_Unmarshal s1 content
  = readFrontmatter yaml_Unmarshal toml_Unmarshal s2 content.
Proof.
  intros H. rewrite !readFrontmatter_cases.
  by rewrite !(finish_ext _ _ _ H).
Qed.

Lemma excluded_keys_act_as_a_set_witness :
  let content := Sample.doc ["---"; "a: 1"; "b: 2"; "c: 3"; "---"; "Body"] in
  Sample.rf [B "a"; B "b"] content = Sample.rf [B "b"; B "a"; B "b"] content
  /\ Sample.rf [B "a"; B "b"] content
     = (Some {[ B "c" := VUint64 3 ]}, None).
Proof.
  intros content. split; [|reflexivity].
  apply (excluded_keys_act_as_a_set Sample.yaml_Unmarshal
           Sample.toml_Unmarshal
           (Sample.srv (Dir [dot] None None []) [B "a"; B "b"])
           (Sample.srv (Dir [dot] None None []) [B "b"; B "a"; B "b"])).
  intros k. cbn [excludeFrontmatter Sample.srv].
  rewrite !elem_of_cons. tauto.
Defined.



(** ** Reading one document *)

(** X6: a successful read by path answers the path asked for, the bytes
    of the file as they are (delimiters and block included), their number
    as size, and the frontmatter that the extractor gives for these
    bytes. *)
Theorem read_by_path_returns_the_file
    (yaml_Unmarshal toml_Unmarshal : bytes -> result (gmap bytes any))
    (s : Server) (path : bytes) (r : readMarkdownFileResponse) :
  readMarkdownFile yaml_Unmarshal toml_Unmarshal s path = inr r ->
  r_Path r = path
  /\ fs.ReadFile (fs_ s) path = inr (r_Content r)
  /\ r_Size r = len (r_Content r)
  /\ readFrontmatter yaml_Unmarshal toml_Unmarshal s (r_Content r)
     = (r_Frontmatter r, None).
Proof.
  unfold readMarkdownFile, fs.ReadFile, fs.Stat.
  destruct (fs_lookup (fs_ s) path) as [[name se re data|]|]; try done.
  destruct re as [err|]; [done|]. cbn [node_Info].
  destruct se as [err|]; [done|].
  destruct (readFrontmatter _ _ s data) as [fm [err|]] eqn:Hfm; [done|].
  by intros [= <-].
Qed.

Lemma read_by_path_returns_the_file_witness :
  let s := Sample.srv Sample.testFS [] in
  let content :=
    Sample.doc ["---"; "title: File 2"; "---"; "content2"] in
  let r := {| r_Path := B "dir/file2.md"; r_Size := 30;
              r_Frontmatter := Some {[ B "title" := VString (B "File 2") ]};
              r_Content := content |} in
  readMarkdownFile Sample.yaml_Unmarshal Sample.toml_Unmarshal s
    (B "dir/file2.md") = inr r
  /\ r_Size r = len (r_Content r).
Proof.
  intros s content r.
  assert (readMarkdownFile Sample.yaml_Unmarshal Sample.toml_Unmarshal s
            (B "dir/file2.md") = inr r) as H by reflexivity.
  split; [exact H|].
  exact (proj1 (proj2 (proj2
           (read_by_path_returns_the_file Sample.yaml_Unmarshal
              Sample.toml_Unmarshal s (B "dir/file2.md") r H)))).
Defined.

(** X7: a document whose block is malformed cannot be read by path - the
    read fails, with the decode error unless already the stat of the file
    fails - but it can still be read by its address, which returns the
    bytes without decoding them. *)
Theorem malformed_document_is_still_a_resource
    (yaml_Unmarshal toml_Unmarshal : bytes -> result (gmap bytes any))
    (s : Server) (path content : bytes) (fm : FrontmatterOpt) (err : error) :
  fs.ReadFile (fs_ s) path = inr content ->
  readFrontmatter yaml_Unmarshal toml_Unmarshal s content = (fm, Some err) ->
  readMarkdownFile yaml_Unmarshal toml_Unmarshal s path
  = inl (match fs.Stat (fs_ s) path with inl e => e | inr _ => err end)
  /\ ReadResource s (B "file://" ++ path)
     = inr {| t_URI := B "file://" ++ path; t_Text := content;
              t_MimeType := B "text/markdown" |}.
Proof.
  intros Hr Hfm. split.
  - unfold readMarkdownFile. rewrite Hr.
    destruct (fs.Stat (fs_ s) path) as [e|info]; [done|].
    by rewrite Hfm.
  - by rewrite ReadResource_file, Hr.
Qed.

Lemma malformed_document_is_still_a_resource_witness :
  let s := Sample.srv Sample.badFS [] in
  let content := Sample.doc ["---"; "value: [1, 2"; "---"; "content2"] in
  readMarkdownFile Sample.yaml_Unmarshal Sample.toml_Unmarshal s (B "b.md")
  = inl (DecodeError (B "sequence end token not found"))
  /\ ReadResource s (B "file://" ++ B "b.md")
     = inr {| t_URI := B "file://" ++ B "b.md"; t_Text := content;
              t_MimeType := B "text/markdown" |}.
Proof.
  intros s content.
  exact (malformed_document_is_still_a_resource Sample.yaml_Unmarshal
           Sample.toml_Unmarshal s (B "b.md") content None
           (DecodeError (B "sequence end token not found"))
           eq_refl eq_refl).
Defined.

(** ** What the scan lists *)

Lemma last_elem_app (r r' acc : bytes) :
  slash ∉ r -> filepath.last_elem (r ++ slash :: r') acc = rev r ++ acc.
Proof.
  revert acc. induction r as [|c r IH]; intros acc Hr.
  - done.
  - apply not_elem_of_cons in Hr as [Hc Hr]. cbn [app filepath.last_elem].
    rewrite (proj2 (Ascii.eqb_neq c slash)) by congruence.
    rewrite (IH _ Hr). cbn [rev]. by rewrite <- app_assoc.
Qed.

Lemma last_elem_free (r acc : bytes) :
  slash ∉ r -> filepath.last_elem r acc = rev r ++ acc.
Proof.
  revert acc. induction r as [|c r IH]; intros acc Hr; [done|].
  apply not_elem_of_cons in Hr as [Hc Hr]. cbn [filepath.last_elem].
  rewrite (proj2 (Ascii.eqb_neq c slash)) by congruence.
  rewrite (IH _ Hr). cbn [rev]. by rewrite <- app_assoc.
Qed.

Lemma valid_name_nonempty (name : bytes) :
  valid_name name = true -> name <> [].
Proof.
  unfold valid_name. rewrite !andb_true_iff, !bool_decide_eq_true.
  tauto.
Qed.

(** The base of a path of the walk is the name of the entry. *)
Lemma Base_join (p name : bytes) :
  valid_name name = true -> filepath.Base (path_Join p name) = name.
Proof.
  intros Hv. pose proof (valid_name_nonempty _ Hv) as Hne.
  apply valid_name_inv in Hv as [Hslash _].
  assert (slash ∉ rev name) as Hrs.
  { intros H. apply Hslash. apply list_elem_of_In, in_rev.
    by apply list_elem_of_In. }
  assert (forall x, filepath.strip_slashes (rev name ++ x) = rev name ++ x)
    as Hstrip.
  { intros x. destruct (rev name) as [|c r] eqn:Hr.
    - exfalso. apply Hne. by rewrite <- (rev_involutive name), Hr.
    - apply not_elem_of_cons in Hrs as [Hc _]. cbn.
      by rewrite (proj2 (Ascii.eqb_neq c slash)) by congruence. }
  unfold path_Join, filepath.Base. case_decide.
  - destruct name as [|c name]; [done|].
    pose proof (Hstrip []) as Hs. rewrite app_nil_r in Hs. rewrite Hs.
    rewrite (last_elem_free _ _ Hrs), app_nil_r, rev_involutive. done.
  - destruct (p ++ slash :: name) as [|c0 q] eqn:Hq;
      [by destruct p|]. rewrite <- Hq.
    rewrite rev_app_distr. cbn [rev]. rewrite <- app_assoc. cbn [app].
    rewrite Hstrip, (last_elem_app _ _ _ Hrs), app_nil_r, rev_involutive.
    by destruct name.
Qed.

Section Listed.

Variables yaml_Unmarshal toml_Unmarshal : bytes -> result (gmap bytes any).
Variable s : Server.
Variables (root_name : bytes) (root_statErr root_readDirErr : option error).
Variable root_entries : list node.
Hypothesis fs_root :
  fs_ s = Dir root_name root_statErr root_readDirErr root_entries.

Local Abbreviation scanNode := (scan_node yaml_Unmarshal toml_Unmarshal).
Local Abbreviation listedBy := (listed yaml_Unmarshal toml_Unmarshal s).

Lemma scan_file_listed p entries name se re data :
  reaches root_entries p entries ->
  NoDup (map node_name entries) ->
  File name se re data ∈ entries ->
  valid_name name = true ->
  Forall listedBy (fst (scanNode s (path_Join p name) (File name se re data))).
Proof.
  intros Hr Hnd Hin Hv. cbn [scan_node].
  destruct (bool_decide (filepath.Ext (path_Join p name) = B ".md"))
    eqn:Hext; [|constructor].
  apply bool_decide_eq_true in Hext. cbn [negb].
  unfold readMarkdownInfo. cbn [de_Info entry_of node_Info].
  destruct se as [err|]; [constructor|].
  rewrite (ReadFile_reached s _ _ _ _ fs_root _ _ _ _ _ _ Hr Hnd Hin Hv).
  destruct re as [err|]; [constructor|].
  destruct (readFrontmatter _ _ s data) as [fm [err|]] eqn:Hfm;
    [constructor|].
  cbn [fst]. apply Forall_singleton. exists name, data. cbn [Path Size Frontmatter_].
  pose proof (reaches_file _ _ _ _ Hr Hnd Hin Hv) as Hf.
  cbn [node_name] in Hf. unfold elems_of in Hf.
  rewrite decide_False in Hf by (by apply path_Join_not_root).
  repeat split.
  - unfold fs_lookup. rewrite fs_root.
    by rewrite decide_False by (by apply path_Join_not_root).
  - apply Ext_md. by rewrite <- (Ext_join p).
  - by apply Ext_md.
  - by apply Base_join.
  - exact Hfm.
Qed.

Lemma scan_dir_listed (n : node) :
  match n with
  | File _ _ _ _ => True
  | Dir _ _ _ entries =>
    forall p,
      reaches root_entries p entries ->
      well_formed n = true ->
      Forall listedBy (fst (scan_entries (scanNode s) p entries))
  end.
Proof.
  induction n as [name se re data|name se rde entries IH]
    using node_induction; [done|].
  intros p Hr Hwf. cbn [well_formed] in Hwf.
  apply andb_true_iff in Hwf as [Hwf Hwfs].
  apply andb_true_iff in Hwf as [Hnd Hval].
  apply bool_decide_eq_true in Hnd.
  rewrite forallb_forall in Hval, Hwfs.
  assert (forall l, (forall e, e ∈ l -> e ∈ entries) ->
            Forall listedBy (fst (scan_entries (scanNode s) p l)))
    as Hall; [|by apply Hall].
  induction l as [|e l IHl]; intros Hsub; [constructor|].
  assert (e ∈ entries) as He by (apply Hsub; by left).
  assert (In e entries) as He' by (by apply list_elem_of_In).
  specialize (IHl (fun e' H => Hsub e' (list_elem_of_further _ _ _ H))).
  rewrite scan_entries_cons.
  assert (Forall listedBy
            (fst (scanNode s (path_Join p (node_name e)) e))) as Hhead.
  { destruct e as [ename ese ere edata|ename ese erde eentries].
    - apply (scan_file_listed p entries); try done.
      by apply (Hval _ He').
    - rewrite Forall_forall in IH. specialize (IH _ He).
      cbn beta iota in IH. cbn [node_name scan_node].
      destruct erde; [constructor|].
      apply IH; [|by apply (Hwfs _ He')].
      eapply reaches_step; [exact Hr|exact Hnd|exact He|].
      by apply (Hval _ He'). }
  destruct (scanNode s (path_Join p (node_name e)) e) as [vs [err|]];
    [exact Hhead|].
  destruct (scan_entries (scanNode s) p l) as [vs' r].
  cbn [fst] in *. by apply Forall_app.
Qed.

End Listed.

Lemma scan_listed
    (yaml_Unmarshal toml_Unmarshal : bytes -> result (gmap bytes any))
    (s : Server) :
  well_formed_fs (fs_ s) = true ->
  Forall (listed yaml_Unmarshal toml_Unmarshal s)
    (Collect (markdownFiles yaml_Unmarshal toml_Unmarshal s)).
Proof.
  intros Hwf. rewrite Collect_markdownFiles. unfold scan.
  unfold well_formed_fs in Hwf.
  destruct (fs_ s) as [|rn rse rrde res] eqn:Hfs; [done|].
  apply andb_true_iff in Hwf as [_ Hwf].
  destruct (node_Info (Dir rn rse rrde res)); [constructor|].
  cbn [scan_node]. destruct rrde; [constructor|].
  apply (scan_dir_listed yaml_Unmarshal toml_Unmarshal s rn rse None res
           Hfs (Dir rn rse None res) [dot] (reaches_root res) Hwf).
Qed.

(** X8: every document that the scan of a well-formed filesystem lists
    has a path ending in [.md] and can be read back by that path and by
    its address, also when the scan fails later on: the read by path
    answers the size and frontmatter of the descriptor, and the size is
    the number of bytes of the content. *)
Theorem listed_documents_can_be_read
    (yaml_Unmarshal toml_Unmarshal : bytes -> result (gmap bytes any))
    (s : Server) (f : markdownFileInfo) :
  well_formed_fs (fs_ s) = true ->
  f ∈ Collect (markdownFiles yaml_Unmarshal toml_Unmarshal s) ->
  is_md (Path f) = true /\
  exists content,
    readMarkdownFile yaml_Unmarshal toml_Unmarshal s (Path f)
    = inr {| r_Path := Path f; r_Size := Size f;
             r_Frontmatter := Frontmatter_ f; r_Content := content |}
    /\ Size f = len content
    /\ ReadResource s (B "file://" ++ Path f)
       = inr {| t_URI := B "file://" ++ Path f; t_Text := content;
                t_MimeType := B "text/markdown" |}.
Proof.
  intros Hwf Hf. pose proof (scan_listed yaml_Unmarshal toml_Unmarshal s Hwf)
    as Hl.
  rewrite Forall_forall in Hl.
  destruct (Hl f Hf) as (name & data & Hlook & _ & Hmd & _ & Hsize & Hfm).
  split; [exact Hmd|]. exists data.
  assert (fs.ReadFile (fs_ s) (Path f) = inr data) as Hread
    by (unfold fs.ReadFile; by rewrite Hlook).
  split; [|split; [exact Hsize|]].
  - unfold readMarkdownFile, fs.Stat. rewrite Hread, Hlook.
    cbn [node_Info]. rewrite Hfm. cbn [fi_Size]. by rewrite Hsize.
  - by rewrite ReadResource_file, Hread.
Qed.

Lemma listed_documents_can_be_read_witness :
  let s := Sample.srv Sample.badFS [] in
  let a := {| Path := B "a.md"; Size := 8; Frontmatter_ := None |} in
  well_formed_fs (fs_ s) = true /\
  a ∈ Collect (markdownFiles Sample.yaml_Unmarshal Sample.toml_Unmarshal s) /\
  is_md (Path a) = true /\
  exists content,
    readMarkdownFile Sample.yaml_Unmarshal Sample.toml_Unmarshal s (Path a)
    = inr {| r_Path := Path a; r_Size := Size a;
             r_Frontmatter := Frontmatter_ a; r_Content := content |}
    /\ Size a = len content
    /\ ReadResource s (B "file://" ++ Path a)
       = inr {| t_URI := B "file://" ++ Path a; t_Text := content;
                t_MimeType := B "text/markdown" |}.
Proof.
  intros s a.
  assert (well_formed_fs (fs_ s) = true) as Hwf by reflexivity.
  assert (a ∈ Collect (markdownFiles Sample.yaml_Unmarshal
                         Sample.toml_Unmarshal s)) as Ha.
  { change (Collect (markdownFiles Sample.yaml_Unmarshal
                       Sample.toml_Unmarshal s)) with [a]. by left. }
  split; [exact Hwf|]. split; [exact Ha|].
  exact (listed_documents_can_be_read Sample.yaml_Unmarshal
           Sample.toml_Unmarshal s a Hwf Ha).
Defined.

(** X9: the catalog of a well-formed filesystem describes each listed
    document by its own file: the address is [file://] and the path, the
    display name is the name of the file (the last element of the path),
    the description is what [json.Marshal] makes of the frontmatter, the
    media type is [text/markdown] and the declared size is the number of
    bytes of the file. *)
Theorem catalog_describes_each_document
    (yaml_Unmarshal toml_Unmarshal : bytes -> result (gmap bytes any))
    (json_Marshal : FrontmatterOpt -> result bytes)
    (s : Server) (opts : list mcp_ServerOption) :
  well_formed_fs (fs_ s) = true ->
  listResourcesOption yaml_Unmarshal toml_Unmarshal json_Marshal s
  = inr opts ->
  Forall2 (fun f o => exists desc name data,
             o = WithResource
                   {| URI := B "file://" ++ Path f; Name := name;
                      Description := desc; MimeType := B "text/markdown";
                      res_Size := len data |}
             /\ json_Marshal (Frontmatter_ f) = inr desc
             /\ fs_lookup (fs_ s) (Path f) = Some (File name None None data))
          (Collect (markdownFiles yaml_Unmarshal toml_Unmarshal s)) opts.
Proof.
  intros Hwf Hopts. rewrite listResourcesOption_catalog in Hopts.
  apply catalog_inv in Hopts.
  pose proof (scan_listed yaml_Unmarshal toml_Unmarshal s Hwf) as Hl.
  rewrite Collect_markdownFiles in *.
  revert Hl. induction Hopts as [|f o vs os (desc & Hj & ->) _ IH];
    intros Hl; [constructor|].
  apply Forall_cons in Hl as [(name & data & Hlook & _ & _ & Hb & Hsz & _) Hl].
  constructor; [|by apply IH].
  exists desc, name, data. unfold resource_of. by rewrite Hb, Hsz.
Qed.

Lemma catalog_describes_each_document_witness :
  let s := Sample.srv Sample.testFS [] in
  exists opts,
    listResourcesOption Sample.yaml_Unmarshal Sample.toml_Unmarshal
      Sample.json_Marshal s = inr opts
    /\ length opts = 5%nat
    /\ Forall2 (fun f o => exists desc name data,
                  o = WithResource
                        {| URI := B "file://" ++ Path f; Name := name;
                           Description := desc;
                           MimeType := B "text/markdown";
                           res_Size := len data |}
                  /\ Sample.json_Marshal (Frontmatter_ f) = inr desc
                  /\ fs_lookup (fs_ s) (Path f)
                     = Some (File name None None data))
               (Collect (markdownFiles Sample.yaml_Unmarshal
                           Sample.toml_Unmarshal s)) opts.
Proof.
  intros s.
  pose (opts :=
          match listResourcesOption Sample.yaml_Unmarshal
                  Sample.toml_Unmarshal Sample.json_Marshal s with
          | inr o => o
          | inl _ => []
          end).
  assert (listResourcesOption Sample.yaml_Unmarshal Sample.toml_Unmarshal
            Sample.json_Marshal s = inr opts) as Hopts
    by (vm_compute; reflexivity).
  assert (well_formed_fs (fs_ s) = true) as Hwf by reflexivity.
  exists opts. split; [exact Hopts|].
  split; [vm_compute; reflexivity|].
  exact (catalog_describes_each_document Sample.yaml_Unmarshal
           Sample.toml_Unmarshal Sample.json_Marshal s opts Hwf Hopts).
Defined.

(** ** Construction *)

Lemma foldl_apply_option (options : list ServerOption) (s : Server) :
  foldl apply_option s options
  = {| name := name s; description := description s; fs_ := fs_ s;
       opts := opts s ++ mcp_options options;
       excludeFrontmatter := excludeFrontmatter s ++ excluded_keys options |}.
Proof.
  revert s. induction options as [|o options IH]; intros s.
  - cbn. rewrite !app_nil_r. by destruct s.
  - cbn [foldl]. rewrite IH.
    destruct o as [opts'|keys]; cbn; by rewrite <- ?app_assoc, ?app_nil_r.
Qed.

(** X11: [New] hands name, description and filesystem on unchanged and
    lets the options accumulate, each kind in the order given and
    whatever the interleaving of the kinds: the excluded keys of all
    [WithExcludeFrontmatter] options are in force for the catalog, and
    the MCP options of all [WithMCPOptions] options follow the catalog,
    the resource reader and the two tools.  The construction fails
    before [mcp.NewServer] only with an error of [json.Marshal]. *)
Theorem New_accumulates_options
    (yaml_Unmarshal toml_Unmarshal : bytes -> result (gmap bytes any))
    (json_Marshal : FrontmatterOpt -> result bytes)
    (mcp_Server : Type)
    (mcp_NewServer : bytes -> bytes -> list mcp_ServerOption
                     -> result mcp_Server)
    (name description : bytes) (fsys : node) (options : list ServerOption) :
  let s := {| name := name; description := description; fs_ := fsys;
              opts := mcp_options options;
              excludeFrontmatter := excluded_keys options |} in
  New yaml_Unmarshal toml_Unmarshal json_Marshal mcp_Server mcp_NewServer
    name description fsys options
  = match catalog json_Marshal
            (Collect (markdownFiles yaml_Unmarshal toml_Unmarshal s)) with
    | inl err => inl err
    | inr resources =>
      mcp_NewServer name description
        (resources
         ++ [WithResourceReader; listMarkdownFilesTool s;
             readMarkdownFileTool s]
         ++ mcp_options options)
    end.
Proof.
  intros s. unfold New. rewrite foldl_apply_option. cbn [app].
  change (server _ _ _ _ _ _) with
    (server yaml_Unmarshal toml_Unmarshal json_Marshal mcp_Server
       mcp_NewServer s).
  unfold server. rewrite listResourcesOption_catalog, Collect_markdownFiles.
  destruct (catalog json_Marshal _); [done|].
  by rewrite <- app_assoc.
Qed.

(** ** The command *)

Lemma strings_Join_cons (x e : bytes) (es : list bytes) (sep : ascii) :
  strings_Join (x :: e :: es) sep = x ++ sep :: strings_Join (e :: es) sep.
Proof. reflexivity. Qed.

Lemma split_on_join_back (sep : ascii) (v : bytes) :
  strings_Join (split_on sep v) sep = v.
Proof.
  induction v as [|c v IH]; [done|]. cbn [split_on].
  pose proof (split_on_nonempty sep v) as Hne.
  destruct (split_on sep v) as [|e es]; [done|].
  destruct (Ascii.eqb_spec c sep) as [->|Hc].
  - by rewrite strings_Join_cons, IH.
  - destruct es as [|e' es].
    + cbn [strings_Join] in *. by rewrite IH.
    + rewrite strings_Join_cons in *. cbn [app]. by rewrite IH.
Qed.

Lemma split_on_pieces (sep : ascii) (v : bytes) :
  Forall (fun k => sep ∉ k) (split_on sep v).
Proof.
  induction v as [|c v IH]; cbn [split_on].
  - apply Forall_singleton, not_elem_of_nil.
  - destruct (Ascii.eqb_spec c sep) as [->|Hc].
    + constructor; [apply not_elem_of_nil|done].
    + destruct (split_on sep v) as [|e es].
      * apply Forall_singleton. apply not_elem_of_cons.
        split; [congruence|apply not_elem_of_nil].
      * apply Forall_cons in IH as [He Hes]. constructor; [|done].
        apply not_elem_of_cons. split; [congruence|done].
Qed.

(** X12: the command builds its server with the value of the flag
    [exclude-frontmatter] cut at every comma: the pieces joined by commas
    give the value back, no piece holds a comma, and there is always at
    least one piece, so that an unset (empty) flag excludes the empty
    key and not nothing. *)
Theorem main_excludes_the_pieces_of_the_flag
    (yaml_Unmarshal toml_Unmarshal : bytes -> result (gmap bytes any))
    (json_Marshal : FrontmatterOpt -> result bytes)
    (mcp_Server : Type)
    (mcp_NewServer : bytes -> bytes -> list mcp_ServerOption
                     -> result mcp_Server)
    (name description : bytes) (dirFS : node) (flag : bytes) :
  let keys := strings_Split flag ","%char in
  main_New yaml_Unmarshal toml_Unmarshal json_Marshal mcp_Server
    mcp_NewServer name description dirFS flag
  = server yaml_Unmarshal toml_Unmarshal json_Marshal mcp_Server
      mcp_NewServer
      {| name := name; description := description; fs_ := dirFS;
         opts := []; excludeFrontmatter := keys |}
  /\ strings_Join keys ","%char = flag
  /\ Forall (fun k => ","%char ∉ k) keys
  /\ keys <> []
  /\ (flag = [] -> keys = [[]]).
Proof.
  intros keys. split; [reflexivity|]. split; [apply split_on_join_back|].
  split; [apply split_on_pieces|]. split; [apply split_on_nonempty|].
  by intros ->.
Qed.

(** ** The earlier extractor *)

Lemma opens_TOML_not_YAML (content : bytes) :
  opens content TOML = true -> opens content YAML = false.
Proof.
  intros Ht. destruct (opens content YAML) eqn:Hy; [|done].
  apply opens_exclusive in Hy. congruence.
Qed.

(** X13: the earlier extractor of [server.go] takes the offset of the
    closing delimiter, which counts from behind the opening delimiter,
    as the end of the slice from the start of the content.  For a
    document that starts with the opening delimiter line it therefore
    hands the decoder the block without its last four bytes (the length
    of the delimiter), and panics with a slice out of bounds when the
    block is shorter than that. *)
Theorem legacy_extractor_cuts_the_block
    (yaml_Unmarshal toml_Unmarshal : bytes -> result (gmap bytes any))
    (content : bytes) (n : notation)
    (l1 : bytes) (ls : list bytes) (body : bytes) :
  let blk := join_lines (l1 :: ls) in
  content = delimiter n ++ blk ++ LF :: delimiter n ++ body ->
  opens content n = true ->
  LF ∉ l1 ->
  Forall (fun l => (LF ∉ l) /\ l <> mark n) ls ->
  legacy_readFrontmatter yaml_Unmarshal toml_Unmarshal content
  = if len blk <? 4 then None
    else
      match decoder yaml_Unmarshal toml_Unmarshal n
              (take (Z.to_nat (len blk - 4)) blk) with
      | inl err => Some (∅, Some err)
      | inr frontmatter => Some (frontmatter, None)
      end.
Proof.
  intros blk Hc Ho Hl1 Hls.
  assert (bytes_.HasPrefix content (delimiter n) = true) as Hp
    by (rewrite Hc; apply HasPrefix_app).
  assert (len (delimiter n) = 4) as Hlen by (by destruct n).
  assert (bytes_.Index (slice_from content (0 + len (delimiter n)))
            (LF :: delimiter n) = len blk) as Hend.
  { unfold slice_from. rewrite Z.add_0_l. unfold len at 1.
    rewrite Nat2Z.id, Hc, drop_app_length. by apply close_found. }
  assert (slice content (0 + len (delimiter n)) (len blk)
          = take (Z.to_nat (len blk - 4)) blk) as Hslice.
  { unfold slice. rewrite Z.add_0_l, Hlen.
    replace (Z.to_nat 4) with (length (delimiter n))
      by (unfold len in Hlen; lia).
    rewrite Hc, drop_app_length.
    rewrite take_app_le; [done|]. unfold len. lia. }
  assert (forall rest,
            legacy_readFrontmatter_loop content
              ({| Unmarshaler := decoder yaml_Unmarshal toml_Unmarshal n;
                  Delimiter := delimiter n |} :: rest)
            = if len blk <? 4 then None
              else
                match decoder yaml_Unmarshal toml_Unmarshal n
                        (take (Z.to_nat (len blk - 4)) blk) with
                | inl err => Some (∅, Some err)
                | inr frontmatter => Some (frontmatter, None)
                end) as Hstep.
  { intros rest. cbn [legacy_readFrontmatter_loop Delimiter Unmarshaler].
    unfold opens in Ho. rewrite Ho, (Index_prefix _ _ Hp).
    cbn [Z.eqb]. cbv zeta. rewrite Hend, Hslice, Z.add_0_l, Hlen.
    destruct (Z.eqb_spec (len blk) (-1)) as [H|_];
      [unfold len in H; lia|done]. }
  unfold legacy_readFrontmatter, unmarshalers. destruct n.
  - apply (Hstep [_]).
  - cbn [legacy_readFrontmatter_loop Delimiter].
    pose proof (opens_TOML_not_YAML _ Ho) as Hy. unfold opens in Hy.
    change (B "---" ++ [LF]) with (delimiter YAML). rewrite Hy.
    apply (Hstep []).
Qed.

Lemma legacy_extractor_cuts_the_block_witness :
  let content := Sample.doc ["---"; "title: T"; "---"; "Body"] in
  legacy_readFrontmatter Sample.yaml_Unmarshal Sample.toml_Unmarshal content
  = (if len (B "title: T") <? 4 then None
     else
       match Sample.yaml_Unmarshal
               (take (Z.to_nat (len (B "title: T") - 4)) (B "title: T")) with
       | inl err => Some (∅, Some err)
       | inr frontmatter => Some (frontmatter, None)
       end)
  /\ take (Z.to_nat (len (B "title: T") - 4)) (B "title: T") = B "titl"
  /\ legacy_readFrontmatter Sample.yaml_Unmarshal Sample.toml_Unmarshal
       (Sample.doc ["---"; "a:"; "---"; "Body"]) = None.
Proof.
  intros content. split; [|split; reflexivity].
  assert (LF ∉ B "title: T") as Hl by not_in_literal.
  exact (legacy_extractor_cuts_the_block Sample.yaml_Unmarshal
           Sample.toml_Unmarshal content YAML (B "title: T") [] (B "Body")
           eq_refl eq_refl Hl (Forall_nil_2 _)).
Defined.

(** ** The errors of the catalog and the bound of the scan *)

Lemma catalog_error (json_Marshal : FrontmatterOpt -> result bytes)
    (vs : list markdownFileInfo) (err : error) :
  catalog json_Marshal vs = inl err <->
  exists pre f post,
    vs = pre ++ f :: post
    /\ Forall (fun g => exists d, json_Marshal (Frontmatter_ g) = inr d) pre
    /\ json_Marshal (Frontmatter_ f) = inl err.
Proof.
  induction vs as [|g vs IH]; cbn [catalog].
  - split; [done|]. intros (pre & f & post & H & _). by destruct pre.
  - destruct (json_Marshal (Frontmatter_ g)) as [e|d] eqn:Hg.
    + split.
      * intros [= ->]. exists [], g, vs. by repeat split.
      * intros (pre & f & post & H & Hpre & Hf).
        destruct pre as [|g' pre]; cbn [app] in H; injection H as -> ->.
        -- congruence.
        -- apply Forall_cons in Hpre as [[d Hd] _]. congruence.
    + destruct (catalog json_Marshal vs) as [e|os].
      * split.
        -- intros [= ->]. destruct (proj1 IH eq_refl)
             as (pre & f & post & -> & Hpre & Hf).
           exists (g :: pre), f, post. repeat split; [|done].
           constructor; [by exists d|done].
        -- intros (pre & f & post & H & Hpre & Hf).
           destruct pre as [|g' pre]; cbn [app] in H; injection H as -> ->.
           ++ congruence.
           ++ apply Forall_cons in Hpre as [_ Hpre].
              apply IH. by exists pre, f, post.
      * split; [done|].
        intros (pre & f & post & H & Hpre & Hf).
        destruct pre as [|g' pre]; cbn [app] in H; injection H as -> ->.
        -- congruence.
        -- apply Forall_cons in Hpre as [_ Hpre].
           assert (@inr error _ os = inl err) as Habs; [|done].
           apply IH. by exists pre, f, post.
Qed.

(** X14: the building of the catalog fails exactly when [json.Marshal]
    rejects the frontmatter of a listed document, and then with the error
    of the first such document; no failure of the scan makes it fail. *)
Theorem catalog_fails_only_in_json_Marshal
    (yaml_Unmarshal toml_Unmarshal : bytes -> result (gmap bytes any))
    (json_Marshal : FrontmatterOpt -> result bytes)
    (s : Server) (err : error) :
  listResourcesOption yaml_Unmarshal toml_Unmarshal json_Marshal s = inl err
  <->
  exists pre f post,
    Collect (markdownFiles yaml_Unmarshal toml_Unmarshal s)
    = pre ++ f :: post
    /\ Forall (fun g => exists d, json_Marshal (Frontmatter_ g) = inr d) pre
    /\ json_Marshal (Frontmatter_ f) = inl err.
Proof.
  rewrite listResourcesOption_catalog, Collect_markdownFiles.
  apply catalog_error.
Qed.

Section Bound.

Variables yaml_Unmarshal toml_Unmarshal : bytes -> result (gmap bytes any).
Variable s : Server.

Local Abbreviation scanNode := (scan_node yaml_Unmarshal toml_Unmarshal).

Lemma scan_file_bound p name se re data :
  (length (fst (scanNode s (path_Join p name) (File name se re data)))
   <= count_md (File name se re data))%nat.
Proof.
  cbn [scan_node count_md].
  destruct (bool_decide (filepath.Ext (path_Join p name) = B ".md"))
    eqn:Hext; cbn [negb]; [|cbn; lia].
  apply bool_decide_eq_true in Hext. rewrite Ext_join in Hext.
  apply Ext_md in Hext. rewrite Hext.
  destruct (readMarkdownInfo _ _ s _ _); cbn; lia.
Qed.

Lemma scan_entries_bound (n : node) :
  match n with
  | File _ _ _ _ => True
  | Dir _ _ _ entries =>
    forall p,
      (length (fst (scan_entries (scanNode s) p entries))
       <= count_md n)%nat
  end.
Proof.
  induction n as [name se re data|name se rde entries IH]
    using node_induction; [done|].
  intros p. cbn [count_md].
  induction IH as [|e entries He _ IHes]; [done|].
  rewrite scan_entries_cons. cbn [map].
  change (list_sum (count_md e :: map count_md entries))
    with (count_md e + list_sum (map count_md entries))%nat.
  assert (length (fst (scanNode s (path_Join p (node_name e)) e))
          <= count_md e)%nat as Hhead.
  { destruct e as [ename ese ere edata|ename ese erde eentries].
    - apply scan_file_bound.
    - cbn [scan_node]. destruct erde; [cbn; lia|]. apply He. }
  destruct (scanNode s (path_Join p (node_name e)) e) as [vs [err|]];
    cbn [fst] in *; [lia|].
  destruct (scan_entries (scanNode s) p entries) as [vs' r].
  cbn [fst] in *. rewrite length_app. lia.
Qed.

End Bound.

(** X15: whatever fails, the scan never lists more documents than the
    snapshot holds non-directory entries whose name ends in [.md]. *)
Theorem scan_lists_at_most_the_markdown_files
    (yaml_Unmarshal toml_Unmarshal : bytes -> result (gmap bytes any))
    (s : Server) :
  (length (Collect (markdownFiles yaml_Unmarshal toml_Unmarshal s))
   <= count_md (fs_ s))%nat.
Proof.
  rewrite Collect_markdownFiles. unfold scan.
  destruct (node_Info (fs_ s)); [cbn; lia|].
  destruct (fs_ s) as [name se re data|name se rde entries].
  - cbn [scan_node].
    rewrite (bool_decide_eq_false_2 (filepath.Ext [dot] = B ".md"))
      by discriminate.
    cbn [negb fst length]. lia.
  - cbn [scan_node]. destruct rde; [cbn; lia|].
    apply (scan_entries_bound yaml_Unmarshal toml_Unmarshal s
             (Dir name se None entries)).
Qed.

(** ** Addresses and paths that read nothing *)

(** X16: the resource reader accepts an address only by its first seven
    bytes [file://]: an address of the scheme [file] that does not go on
    with two slashes is refused as an unsupported scheme, with the whole
    address in the message. *)
Theorem file_scheme_needs_both_slashes (s : Server) (rest : bytes) :
  bytes_.HasPrefix rest (B "//") = false ->
  scheme_of (B "file:" ++ rest) = Some (B "file")
  /\ ReadResource s (B "file:" ++ rest)
     = inl (errorString (B "unsupported scheme: " ++ B "file:" ++ rest)).
Proof.
  intros H. split; [done|]. unfold ReadResource, strings_.HasPrefix.
  change (bytes_.HasPrefix (B "file:" ++ rest) (B "file://"))
    with (bytes_.HasPrefix rest (B "//")).
  by rewrite H.
Qed.

Lemma file_scheme_needs_both_slashes_witness :
  ReadResource (Sample.srv Sample.testFS []) (B "file:" ++ B "/file1.md")
  = inl (errorString
           (B "unsupported scheme: " ++ B "file:" ++ B "/file1.md")).
Proof.
  exact (proj2 (file_scheme_needs_both_slashes
                  (Sample.srv Sample.testFS []) (B "/file1.md") eq_refl)).
Defined.

Lemma find_entry_some (name : bytes) (entries : list node) (n : node) :
  find_entry name entries = Some n -> In n entries /\ node_name n = name.
Proof.
  unfold find_entry. intros H. apply find_some in H as [Hin Hn].
  by apply bool_decide_eq_true in Hn.
Qed.

(** Only valid names lead to an entry of a well-formed tree. *)
Lemma find_path_valid (elems : list bytes) :
  forall entries n,
    forallb (fun e => valid_name (node_name e)) entries = true ->
    forallb well_formed entries = true ->
    find_path elems entries = Some n ->
    Forall (fun e => valid_name e = true) elems.
Proof.
  induction elems as [|e elems IH]; intros entries n Hval Hwf Hf; [done|].
  rewrite forallb_forall in Hval, Hwf.
  destruct elems as [|e' elems].
  - cbn [find_path] in Hf. apply find_entry_some in Hf as [Hin <-].
    apply Forall_singleton. by apply Hval.
  - cbn [find_path] in Hf.
    destruct (find_entry e entries) as [[|dname se rde entries']|] eqn:He;
      try done.
    apply find_entry_some in He as [Hin Hname]. cbn [node_name] in Hname.
    constructor.
    + rewrite <- Hname. apply (Hval _ Hin).
    + pose proof (Hwf _ Hin) as Hwfd. cbn [well_formed] in Hwfd.
      apply andb_true_iff in Hwfd as [Hwfd Hwfs].
      apply andb_true_iff in Hwfd as [_ Hvald].
      by apply (IH entries' n).
Qed.

(** X17: in a well-formed filesystem a path with an element that is no
    valid name - an empty element as in a leading, trailing or doubled
    slash, [.] or [..] - reads no file, neither by path nor by address:
    no path leads out of the served tree, and the form [file:///name] of
    an address finds nothing. *)
Theorem paths_with_invalid_elements_read_nothing
    (yaml_Unmarshal toml_Unmarshal : bytes -> result (gmap bytes any))
    (s : Server) (path : bytes) :
  well_formed_fs (fs_ s) = true ->
  Exists (fun e => valid_name e = false) (split_path path) ->
  (exists err,
     readMarkdownFile yaml_Unmarshal toml_Unmarshal s path = inl err)
  /\ (exists err, ReadResource s (B "file://" ++ path) = inl err).
Proof.
  intros Hwf Hex.
  assert (exists err, fs.ReadFile (fs_ s) path = inl err) as [err Hr].
  { unfold fs.ReadFile, fs_lookup. unfold well_formed_fs in Hwf.
    destruct (fs_ s) as [|rn rse rrde res]; [done|].
    apply andb_true_iff in Hwf as [_ Hwf]. cbn [well_formed] in Hwf.
    apply andb_true_iff in Hwf as [Hwf Hwfs].
    apply andb_true_iff in Hwf as [_ Hval].
    case_decide; [by eexists|].
    destruct (find_path (split_path path) res) as [n|] eqn:Hf;
      [|by eexists].
    apply find_path_valid in Hf; [|done|done].
    exfalso. apply Exists_exists in Hex as (e & He & Hbad).
    rewrite Forall_forall in Hf. specialize (Hf e He). congruence. }
  split.
  - exists err. unfold readMarkdownFile. by rewrite Hr.
  - exists err. by rewrite ReadResource_file, Hr.
Qed.

Lemma paths_with_invalid_elements_read_nothing_witness :
  let s := Sample.srv Sample.testFS [] in
  well_formed_fs (fs_ s) = true /\
  Exists (fun e => valid_name e = false) (split_path (B "dir/../file1.md")) /\
  (exists err,
     readMarkdownFile Sample.yaml_Unmarshal Sample.toml_Unmarshal s
       (B "dir/../file1.md") = inl err)
  /\ (exists err,
        ReadResource s (B "file://" ++ B "dir/../file1.md") = inl err).
Proof.
  intros s.
  assert (well_formed_fs (fs_ s) = true) as Hwf by reflexivity.
  assert (Exists (fun e => valid_name e = false)
            (split_path (B "dir/../file1.md"))) as Hex.
  { apply Exists_cons_tl, Exists_cons_hd. reflexivity. }
  split; [exact Hwf|]. split; [exact Hex|].
  exact (paths_with_invalid_elements_read_nothing Sample.yaml_Unmarshal
           Sample.toml_Unmarshal s (B "dir/../file1.md") Hwf Hex).
Defined.

(** ** The scenarios of the extractor *)

Lemma is_digit_not_LF (c : ascii) : Sample.is_digit c = true -> c <> LF.
Proof. intros H ->. discriminate. Qed.

Lemma literal_digits (ds : bytes) :
  Flat.literal ds = true -> Forall (fun c => Sample.is_digit c = true) ds.
Proof.
  unfold Flat.literal, Sample.all_digits. intros H.
  apply andb_true_iff in H as [H _]. destruct ds as [|c ds]; [done|].
  apply Forall_forall. intros x Hx. apply list_elem_of_In in Hx.
  by apply (proj1 (forallb_forall _ _) H).
Qed.

Lemma literal_LF_free (pre ds : bytes) :
  LF ∉ pre -> Flat.literal ds = true -> LF ∉ pre ++ ds.
Proof.
  intros Hp Hd. apply not_elem_of_app. split; [done|].
  intros Hin. apply literal_digits in Hd.
  rewrite Forall_forall in Hd. by apply (is_digit_not_LF _ (Hd _ Hin)).
Qed.

(** A literal does not start with a minus sign or a quote. *)
Lemma literal_not_signed (c : ascii) (ds : bytes) :
  Sample.is_digit c = false -> Flat.literal (c :: ds) = false.
Proof.
  intros Hc. unfold Flat.literal, Sample.all_digits. cbn [forallb].
  by rewrite Hc.
Qed.

(** A document of one line between the delimiter lines of [n], before a
    body [Body], hands that line to the decoder of [n]. *)
Lemma one_line_document
    (yaml_Unmarshal toml_Unmarshal : bytes -> result (gmap bytes any))
    (s : Server) (n : notation) (l : bytes) :
  LF ∉ l ->
  readFrontmatter yaml_Unmarshal toml_Unmarshal s
    (join_lines [mark n; l; mark n; B "Body"])
  = finish (excludeFrontmatter s)
      (decoder yaml_Unmarshal toml_Unmarshal n l).
Proof.
  intros Hl.
  set (content := join_lines [mark n; l; mark n; B "Body"]).
  assert (bytes_.TrimSpace content
          = delimiter n ++ (l ++ LF :: delimiter n ++ B "Body")) as Ht.
  { assert (exists a mid,
              content = a :: mid ++ ["y"%char]
              /\ bv a < utf8.RuneSelf /\ bytes_.asciiSpace a = false)
      as (a & mid & Hc & Ha & Hsa).
    { destruct n.
      - exists "-"%char, (B "--" ++ LF :: l ++ LF :: B "---" ++ LF :: B "Bod").
        split; [|done]. subst content. cbn. f_equal. f_equal. f_equal.
        f_equal. rewrite <- app_assoc. done.
      - exists "+"%char, (B "++" ++ LF :: l ++ LF :: B "+++" ++ LF :: B "Bod").
        split; [|done]. subst content. cbn. f_equal. f_equal. f_equal.
        f_equal. rewrite <- app_assoc. done. }
    pose proof (TrimSpace_padded [] [] mid a "y"%char (Forall_nil_2 _)
                  (Forall_nil_2 _) Ha Hsa eq_refl eq_refl) as H.
    cbn [app] in H. rewrite app_nil_r, <- Hc in H. rewrite H.
    subst content. unfold delimiter. cbn [join_lines].
    by rewrite <- !app_assoc. }
  assert (opens content n = true) as Ho.
  { unfold opens. rewrite Ht. apply HasPrefix_app. }
  assert (close_at content n = len l) as Hc.
  { unfold close_at, slice_from, len at 1.
    rewrite Ht, Nat2Z.id, drop_app_length.
    apply (close_found n [] l (B "Body") Hl (Forall_nil_2 _)). }
  assert (block content n = l) as Hb.
  { unfold block, slice. rewrite Hc, Ht. unfold len.
    rewrite Nat2Z.id, drop_app_length.
    replace (Z.to_nat (Z.of_nat (length (delimiter n)) + Z.of_nat (length l)
                       - Z.of_nat (length (delimiter n))))
      with (length l) by lia.
    apply take_app_length. }
  rewrite (readFrontmatter_notation _ _ _ _ n Ho), Hc, Hb.
  destruct (Z.eqb_spec (len l) (-1)) as [H|_]; [unfold len in H; lia|done].
Qed.

(** The value of a pair is read by the scalar resolution of the
    notation. *)
Lemma decode_pair (sep : bytes) (scalar : bytes -> result any)
    (k v : bytes) (x : any) :
  LF ∉ k ++ sep ++ v ->
  Sample.cut sep (k ++ sep ++ v) = Some (k, v) ->
  k ++ sep ++ v <> [] ->
  scalar v = inr x ->
  Sample.decode_lines sep scalar (split_on LF (k ++ sep ++ v)) ∅
  = inr {[ k := x ]}.
Proof.
  intros Hl Hc Hne Hs. rewrite (split_on_free _ _ Hl).
  cbn [Sample.decode_lines]. destruct (k ++ sep ++ v) eqn:E; [done|].
  rewrite Hc, Hs. cbn [Sample.decode_lines]. by rewrite insert_empty.
Qed.

Lemma yaml_unsigned (ds : bytes) :
  Flat.literal ds = true -> Sample.decimal ds < 2 ^ 64 ->
  Flat.yaml_Unmarshal (B "value: " ++ ds)
  = inr {[ B "value" := VUint64 (Sample.decimal ds) ]}.
Proof.
  intros Hd Hr. unfold Flat.yaml_Unmarshal.
  change (B "value: " ++ ds) with (B "value" ++ B ": " ++ ds).
  apply decode_pair; [|reflexivity|discriminate|].
  - apply (literal_LF_free (B "value: ")); [not_in_literal|done].
  - unfold Flat.yaml_scalar. by rewrite Hd, (proj2 (Z.ltb_lt _ _) Hr).
Qed.

Lemma yaml_negative (ds : bytes) :
  Flat.literal ds = true -> Sample.decimal ds <= 2 ^ 63 ->
  Flat.yaml_Unmarshal (B "value: -" ++ ds)
  = inr {[ B "value" := VInt64 (- Sample.decimal ds) ]}.
Proof.
  intros Hd Hr. unfold Flat.yaml_Unmarshal.
  change (B "value: -" ++ ds) with (B "value" ++ B ": " ++ "-"%char :: ds).
  apply decode_pair; [|reflexivity|discriminate|].
  - apply (literal_LF_free (B "value: -")); [not_in_literal|done].
  - unfold Flat.yaml_scalar.
    rewrite (literal_not_signed "-"%char ds eq_refl). cbn [andb].
    by rewrite Ascii.eqb_refl, Hd, (proj2 (Z.leb_le _ _) Hr).
Qed.

Lemma toml_signed (ds : bytes) :
  Flat.literal ds = true -> Sample.decimal ds < 2 ^ 63 ->
  Flat.toml_Unmarshal (B "value = " ++ ds)
  = inr {[ B "value" := VInt64 (Sample.decimal ds) ]}.
Proof.
  intros Hd Hr. unfold Flat.toml_Unmarshal.
  change (B "value = " ++ ds) with (B "value" ++ B " = " ++ ds).
  apply decode_pair; [|reflexivity|discriminate|].
  - apply (literal_LF_free (B "value = ")); [not_in_literal|done].
  - unfold Flat.toml_scalar. by rewrite Hd, (proj2 (Z.ltb_lt _ _) Hr).
Qed.

Lemma toml_negative (ds : bytes) :
  Flat.literal ds = true -> Sample.decimal ds <= 2 ^ 63 ->
  Flat.toml_Unmarshal (B "value = -" ++ ds)
  = inr {[ B "value" := VInt64 (- Sample.decimal ds) ]}.
Proof.
  intros Hd Hr. unfold Flat.toml_Unmarshal.
  change (B "value = -" ++ ds) with (B "value" ++ B " = " ++ "-"%char :: ds).
  apply decode_pair; [|reflexivity|discriminate|].
  - apply (literal_LF_free (B "value = -")); [not_in_literal|done].
  - unfold Flat.toml_scalar.
    rewrite (literal_not_signed "-"%char ds eq_refl). cbn [andb].
    destruct (rev ("-"%char :: ds)) as [|c' r] eqn:E.
    + apply (f_equal length) in E. rewrite length_rev in E. discriminate.
    + by rewrite Ascii.eqb_refl, Hd, (proj2 (Z.leb_le _ _) Hr).
Qed.



